(** * Breach news monitor: a shallow embedding of [server.js]

    The development follows the ingestion pipeline of the Node.js server:
    title splitting, the recency filter, keyword extraction, substring
    de-duplication, the recency sort, the one hour cache in front of the
    [/api/breach-news] route and the HTML report.

    Conventions of the embedding.
    - A JavaScript string is a [string]: a sequence of code units, here the
      code units U+0000 to U+00FF.
    - A [Date] is its time value: [Some t] with [t] the milliseconds since the
      epoch, [None] for an Invalid Date.  The process runs in UTC, so that
      local calendar arithmetic and UTC arithmetic coincide.
    - Every [new Date()] / [Date.now()] is a read of a clock; the clock is a
      function from the number of reads made so far to the time, and the
      effectful code threads that counter.
    - What the server takes from npm packages (the RSS parser, the tokenizer,
      the export [remove] of the [stopword] package, the stemmer) and the
      host's date parser are parameters of the definitions that use them;
      [stopword_remove] is the value of that export in the package as it is.
    - The log is not part of the state, and the pause between two feeds
      shows only in what the clock reads afterwards. *)

From Stdlib Require Import String Ascii List ZArith Lia Bool Arith PeanoNat.
From Stdlib Require Import Permutation Sorted DecimalString.
Import ListNotations.
Open Scope string_scope.

(* ================================================================= *)
(** ** String primitives *)

Module Str.

(** [s.includes(sub)] *)
Fixpoint includes (s sub : string) : bool :=
  if prefix sub s then true
  else match s with
       | EmptyString => false
       | String _ r => includes r sub
       end.

(** Put a code unit in front of the first piece of a split. *)
Definition cons_head (c : ascii) (ps : list string) : list string :=
  match ps with
  | [] => [String c EmptyString]
  | p :: ps' => String c p :: ps'
  end.

(** [s.split(sep)] for a non-empty separator: the scan goes left to right, a
    match closes the current piece and the scan resumes after the matched
    separator ([skip] counts the code units of the separator still to pass),
    so that matches never overlap. *)
Fixpoint split_from (sep : string) (skip : nat) (s : string) : list string :=
  match s with
  | EmptyString => [EmptyString]
  | String c r =>
      match skip with
      | S k => split_from sep k r
      | O => if prefix sep s
             then EmptyString :: split_from sep (String.length sep - 1) r
             else cons_head c (split_from sep 0 r)
      end
  end.

Definition split (s sep : string) : list string := split_from sep 0 s.

(** [parts.join(sep)] *)
Definition join (parts : list string) (sep : string) : string :=
  String.concat sep parts.

(** [s.lastIndexOf(sub)], [None] for -1. *)
Fixpoint lastIndexOf (s sub : string) : option nat :=
  match s with
  | EmptyString => if prefix sub EmptyString then Some 0 else None
  | String _ r =>
      match lastIndexOf r sub with
      | Some i => Some (S i)
      | None => if prefix sub s then Some 0 else None
      end
  end.

(** [s.slice(n)] *)
Fixpoint drop (n : nat) (s : string) : string :=
  match n, s with
  | O, _ => s
  | S k, EmptyString => EmptyString
  | S k, String _ r => drop k r
  end.

(** [s.slice(0, n)] *)
Fixpoint take (n : nat) (s : string) : string :=
  match n, s with
  | O, _ => EmptyString
  | S k, EmptyString => EmptyString
  | S k, String c r => String c (take k r)
  end.

(** [s.toLowerCase()] on the code units U+0000 to U+00FF: the capitals A-Z
    and the Latin-1 capitals U+00C0 to U+00DE except the multiplication sign
    U+00D7 move up by 32. *)
Definition lower_char (c : ascii) : ascii :=
  let n := nat_of_ascii c in
  if ((65 <=? n) && (n <=? 90))%nat
     || ((192 <=? n) && (n <=? 222) && negb (n =? 215))%nat
  then ascii_of_nat (n + 32) else c.

Fixpoint toLowerCase (s : string) : string :=
  match s with
  | EmptyString => EmptyString
  | String c r => String (lower_char c) (toLowerCase r)
  end.

(** The white space of [\s] and of [trim] among these code units. *)
Definition is_space (c : ascii) : bool :=
  let n := nat_of_ascii c in
  ((9 <=? n) && (n <=? 13) || (n =? 32) || (n =? 160))%nat.

(** The line terminators, which [.] does not match. *)
Definition is_newline (c : ascii) : bool :=
  let n := nat_of_ascii c in ((n =? 10) || (n =? 13))%nat.

End Str.

(* ================================================================= *)
(** ** Title splitter *)

(** [array.pop()] on a non-empty array: the remaining elements and the
    removed last one. *)
Definition pop (parts : list string) : list string * string :=
  (removelast parts, last parts EmptyString).

Definition extractSourceFromTitle (title : string) : string * string :=
  if Str.includes title " - " then
    let parts := Str.split title " - " in
    let '(parts, source) := pop parts in
    let mainTitle := Str.join parts " - " in
    (mainTitle, source)
  else (title, "Unknown").

(** The split as the specification words it: the last occurrence of the
    separator is the boundary. *)
Definition split_at_last_separator (raw : string) : string * string :=
  match Str.lastIndexOf raw " - " with
  | Some i => (Str.take i raw, Str.drop (i + 3) raw)
  | None => (raw, "Unknown")
  end.

(* ================================================================= *)
(** ** Numbers and dates of the host *)

(** The double quote, for building the markup. *)
Definition dq : string := String (ascii_of_nat 34) EmptyString.

(** The line feed. *)
Definition nl : string := String (ascii_of_nat 10) EmptyString.

(** An integer number inside a template literal. *)
Definition Z_to_string (z : Z) : string := NilEmpty.string_of_int (Z.to_int z).

Module JsDate.

#[local] Open Scope Z_scope.

Definition msPerDay : Z := 1000 * 60 * 60 * 24.
Definition msPerHour : Z := 1000 * 60 * 60.

Definition digit (n : Z) : ascii := ascii_of_nat (48 + Z.to_nat n).

(** [n] on [w] decimal digits, zero padded. *)
Fixpoint pad (w : nat) (n : Z) : string :=
  match w with
  | O => EmptyString
  | S k => (pad k (n / 10) ++ String (digit (n mod 10)) EmptyString)%string
  end.

(** Year of the era, month (1 to 12) and day of the month of a day of a
    400-year era, the eras starting on a first of March. *)
Definition civil_of_era_day (doe : Z) : Z * Z * Z :=
  let yoe := (doe - doe / 1460 + doe / 36524 - doe / 146096) / 365 in
  let doy := doe - (365 * yoe + yoe / 4 - yoe / 100) in
  let mp := (5 * doy + 2) / 153 in
  let d := doy - (153 * mp + 2) / 5 + 1 in
  let m := if mp <? 10 then mp + 3 else mp - 9 in
  (yoe, m, d).

(** Year, month and day of the month of a day number counted from the epoch,
    in the proleptic Gregorian calendar. *)
Definition civil_from_days (z : Z) : Z * Z * Z :=
  let z := z + 719468 in
  let '(yoe, m, d) := civil_of_era_day (z mod 146097) in
  ((if m <=? 2 then yoe + 1 else yoe) + z / 146097 * 400, m, d).

(** The day of the era back from the year of the era, the month and the day
    of the month. *)
Definition era_day_of_civil (yoe m d : Z) : Z :=
  let mp := if 2 <? m then m - 3 else m + 9 in
  365 * yoe + yoe / 4 - yoe / 100 + (153 * mp + 2) / 5 + d - 1.

(** The time values of the valid dates. *)
Definition valid_time (t : Z) : Prop := -8640000000000000 <= t <= 8640000000000000.

Definition year_string (y : Z) : string :=
  if (0 <=? y) && (y <=? 9999) then pad 4 y
  else ((if (y <? 0)%Z then "-" else "+") ++ pad 6 (Z.abs y))%string.

(** [YYYY-MM-DD], the part of [toISOString()] before the ['T']. *)
Definition isoDay (t : Z) : string :=
  let '(y, m, d) := civil_from_days (t / msPerDay) in
  (year_string y ++ "-" ++ pad 2 m ++ "-" ++ pad 2 d)%string.

(** [HH:mm:ss], the clock time of [toISOString()] down to the second. *)
Definition isoClock (t : Z) : string :=
  let ms := t mod msPerDay in
  (pad 2 (ms / 3600000) ++ ":" ++ pad 2 (ms / 60000 mod 60) ++ ":"
   ++ pad 2 (ms / 1000 mod 60))%string.

(** [date.toISOString()] of a valid date. *)
Definition toISOString (t : Z) : string :=
  (isoDay t ++ "T" ++ isoClock t ++ "." ++ pad 3 (t mod 1000) ++ "Z")%string.

Definition monthShort (m : Z) : string :=
  nth (Z.to_nat (m - 1))
    ["Jan"; "Feb"; "Mar"; "Apr"; "May"; "Jun";
     "Jul"; "Aug"; "Sep"; "Oct"; "Nov"; "Dec"]%string EmptyString.

(** [date.toLocaleDateString('en-US', {month: 'short', day: 'numeric'})] *)
Definition formatDate (t : Z) : string :=
  let '(_, m, d) := civil_from_days (t / msPerDay) in
  (monthShort m ++ " " ++ Z_to_string d)%string.

(** The same with [year: 'numeric']. *)
Definition formatFullDate (t : Z) : string :=
  let '(y, m, d) := civil_from_days (t / msPerDay) in
  (monthShort m ++ " " ++ Z_to_string d ++ ", " ++ Z_to_string y)%string.

(** [date.setDate(date.getDate() + k)]: the same time of the day, [k] days
    later. *)
Definition addDays (t k : Z) : Z := t + k * msPerDay.

End JsDate.

(* ================================================================= *)
(** ** Data model *)

(** An item of a parsed feed, with the fields the server reads; an absent
    field is [None]. *)
Record entry := {
  e_title : option string;
  e_pubDate : option string;
  e_isoDate : option string;
  e_content : option string;
  e_contentSnippet : option string;
  e_link : option string
}.

(** What [parser.parseURL(url)] settles to: a rejection, or a feed whose
    [items] may be absent. *)
Inductive feed_result :=
| FeedError (message : string)
| Feed (items : option (list entry)).

(** The article objects pushed by [fetchGoogleNews].  [date_obj] is the time
    value of the [Date]; an article is only built after [toISOString()] has
    succeeded on it, so the date is a valid one. *)
Record article := {
  search_term : string;
  title : string;
  pub_date : string;
  time_ago : string;
  date_obj : Z;
  link : string;
  source : string;
  keywords : string
}.

Record date_range := { dr_start : string; dr_end : string }.

Record meta := {
  generated_at : string;
  article_count : nat;
  sources : nat;
  meta_date_range : date_range
}.

Record result := { result_meta : meta; articles : list article }.

(** [newsCache] *)
Record cache := {
  data : option result;
  timestamp : option Z;
  expiresIn : Z
}.

Definition newsCache0 : cache :=
  {| data := None; timestamp := None; expiresIn := 3600000 |}.

(** The state the server code runs in: the number of clock reads made so far
    and the module-level cache. *)
Record world := { ticks : nat; newsCache : cache }.

(** What a handler sends. *)
Inductive body :=
| Json (r : result)
| JsonError (message : string)
| Html (document : string).

Record response := { status : nat; resp_body : body }.

(* ================================================================= *)
(** ** Effects: clock, state and exceptions *)

Inductive outcome (A : Type) :=
| Ok (a : A)
| Throw (message : string).
Arguments Ok {A} a.
Arguments Throw {A} message.

Definition M (A : Type) : Type := world -> outcome A * world.

Definition ret {A} (a : A) : M A := fun w => (Ok a, w).

Definition bind {A B} (m : M A) (k : A -> M B) : M B :=
  fun w => match m w with
           | (Ok a, w') => k a w'
           | (Throw e, w') => (Throw e, w')
           end.

Definition throw {A} (message : string) : M A := fun w => (Throw message, w).

(** [try { m } catch (error) { h(error.message) }] *)
Definition try_catch {A} (m : M A) (h : string -> M A) : M A :=
  fun w => match m w with
           | (Ok a, w') => (Ok a, w')
           | (Throw e, w') => h e w'
           end.

Declare Scope js_scope.
Delimit Scope js_scope with js.
Notation "x <- m ;; k" := (bind m (fun x => k))
  (at level 61, m at next level, right associativity) : js_scope.
Notation "m ;;; k" := (bind m (fun _ => k))
  (at level 61, right associativity) : js_scope.

(** The world after one more read of the clock. *)
Definition tick (w : world) : world :=
  {| ticks := S (ticks w); newsCache := newsCache w |}.

Definition get_cache : M cache := fun w => (Ok (newsCache w), w).

Definition set_cache (c : cache) : M unit :=
  fun w => (Ok tt, {| ticks := ticks w; newsCache := c |}).

(** [for (const x of xs) { acc = body(acc, x) }] *)
Fixpoint for_each {A S} (xs : list A) (body : S -> A -> M S) (acc : S) : M S :=
  match xs with
  | [] => ret acc
  | x :: xs' => bind (body acc x) (for_each xs' body)
  end.

(* ================================================================= *)
(** ** Arrays and objects of the host *)

(** [array.sort(cmp)]: a stable sort; [cmp x y > 0] asks for [y] before [x],
    any other answer keeps [x], which came first, in front.  For a consistent
    comparator every stable sort returns this list. *)
Fixpoint insert_by {A} (cmp : A -> A -> Z) (x : A) (l : list A) : list A :=
  match l with
  | [] => [x]
  | y :: l' => if (0 <? cmp x y)%Z then y :: insert_by cmp x l' else x :: l
  end.

Fixpoint sort_by {A} (cmp : A -> A -> Z) (l : list A) : list A :=
  match l with
  | [] => []
  | x :: l' => insert_by cmp x (sort_by cmp l')
  end.

(** [array.slice(0, e)]: a negative [e] counts from the end. *)
Definition slice0 {A} (l : list A) (e : Z) : list A :=
  if (e <? 0)%Z then firstn (Z.to_nat (Z.of_nat (List.length l) + e)) l
  else firstn (Z.to_nat e) l.

(** The values stored in the counter object of [extractKeywords]. *)
Inductive jsval :=
| Num (n : Z)
| Str (s : string).

(** An ordinary object: its own properties in creation order. *)
Definition obj := list (string * jsval).

Module Obj.

(** What an object literal inherits from [Object.prototype], each name with
    the string its value converts to. *)
Definition native (name : string) : string :=
  "function " ++ name ++ "() { [native code] }".

Definition prototype : list (string * string) :=
  [("constructor", native "Object");
   ("__defineGetter__", native "__defineGetter__");
   ("__defineSetter__", native "__defineSetter__");
   ("hasOwnProperty", native "hasOwnProperty");
   ("__lookupGetter__", native "__lookupGetter__");
   ("__lookupSetter__", native "__lookupSetter__");
   ("isPrototypeOf", native "isPrototypeOf");
   ("propertyIsEnumerable", native "propertyIsEnumerable");
   ("toString", native "toString");
   ("valueOf", native "valueOf");
   ("__proto__", "[object Object]");
   ("toLocaleString", native "toLocaleString")].

Fixpoint assoc {V} (k : string) (l : list (string * V)) : option V :=
  match l with
  | [] => None
  | (k', v) :: l' => if String.eqb k k' then Some v else assoc k l'
  end.

Definition inherited (k : string) : option string := assoc k prototype.

(** [o[k] = v]: an own property keeps its place, a new one goes last. *)
Fixpoint set (o : obj) (k : string) (v : jsval) : obj :=
  match o with
  | [] => [(k, v)]
  | (k', v') :: o' =>
      if String.eqb k k' then (k', v) :: o' else (k', v') :: set o' k v
  end.

Definition truthy (v : jsval) : bool :=
  match v with
  | Num n => negb (n =? 0)%Z
  | Str s => negb (String.eqb s "")
  end.

(** [v + 1] *)
Definition plus_one (v : jsval) : jsval :=
  match v with
  | Num n => Num (n + 1)
  | Str s => Str (s ++ "1")
  end.

Definition is_digit (c : ascii) : bool :=
  let n := nat_of_ascii c in ((48 <=? n) && (n <=? 57))%nat.

Fixpoint all_chars (p : ascii -> bool) (s : string) : bool :=
  match s with
  | EmptyString => true
  | String c r => p c && all_chars p r
  end.

Fixpoint decimal (acc : N) (s : string) : N :=
  match s with
  | EmptyString => acc
  | String c r => decimal (acc * 10 + N.of_nat (nat_of_ascii c - 48)) r
  end.

(** An array index: the canonical numeral of an integer below 2^32 - 1. *)
Definition array_index (k : string) : option N :=
  match k with
  | EmptyString => None
  | String c r =>
      if all_chars is_digit k
         && (negb (Ascii.eqb c "0") || String.eqb r "")
         && (decimal 0 k <? 4294967295)%N
      then Some (decimal 0 k) else None
  end.

Definition is_index {V} (p : string * V) : bool :=
  match array_index (fst p) with Some _ => true | None => false end.

Definition index_cmp {V} (p q : string * V) : Z :=
  match array_index (fst p), array_index (fst q) with
  | Some i, Some j => Z.of_N i - Z.of_N j
  | _, _ => 0
  end.

(** [Object.entries(o)]: the array indices in ascending order, then the
    other names in creation order. *)
Definition entries (o : obj) : list (string * jsval) :=
  (sort_by index_cmp (filter is_index o)
   ++ filter (fun p => negb (is_index p)) o)%list.

End Obj.

(* ================================================================= *)
(** ** Text normalizer *)

Module Clean.

(** [text.replace(/<.*?>/g, '')]: from a ['<'] to the nearest ['>'] on the
    same line.  [pending] holds the code units read since an unclosed ['<'];
    they are given back when the line or the text ends first. *)
Fixpoint strip_tags (pending : option string) (s : string) : string :=
  match s with
  | EmptyString => match pending with Some buf => buf | None => EmptyString end
  | String c r =>
      match pending with
      | None =>
          if Ascii.eqb c "<" then strip_tags (Some "<") r
          else String c (strip_tags None r)
      | Some buf =>
          if Ascii.eqb c ">" then strip_tags None r
          else if Str.is_newline c
               then buf ++ String c (strip_tags None r)
               else strip_tags (Some (buf ++ String c EmptyString)) r
      end
  end.

Definition nonspace_follows (s : string) : bool :=
  match s with
  | EmptyString => false
  | String c _ => negb (Str.is_space c)
  end.

(** [text.replace(/http\S+/g, '')]: [http] followed by at least one code unit
    that is not white space, up to the next white space. *)
Fixpoint strip_urls (skipping : bool) (s : string) : string :=
  match s with
  | EmptyString => EmptyString
  | String c r =>
      if skipping then
        if Str.is_space c then String c (strip_urls false r)
        else strip_urls true r
      else if prefix "http" s && nonspace_follows (Str.drop 4 s)
           then strip_urls true r
           else String c (strip_urls false r)
  end.

(** [text.replace(/\s+/g, ' ')] *)
Fixpoint collapse_spaces (in_space : bool) (s : string) : string :=
  match s with
  | EmptyString => EmptyString
  | String c r =>
      if Str.is_space c then
        if in_space then collapse_spaces true r
        else String " " (collapse_spaces true r)
      else String c (collapse_spaces false r)
  end.

Fixpoint trimStart (s : string) : string :=
  match s with
  | EmptyString => EmptyString
  | String c r => if Str.is_space c then trimStart r else s
  end.

Fixpoint trimEnd (s : string) : string :=
  match s with
  | EmptyString => EmptyString
  | String c r =>
      let r' := trimEnd r in
      if Str.is_space c && String.eqb r' "" then EmptyString else String c r'
  end.

Definition trim (s : string) : string := trimEnd (trimStart s).

(** The three replacements, [trim()] and [toLowerCase()]. *)
Definition clean (text : string) : string :=
  let text := strip_tags None text in
  let text := strip_urls false text in
  Str.toLowerCase (trim (collapse_spaces false text)).

End Clean.

Definition additionalStops : list string :=
  ["said"; "also"; "would"; "according"; "reported"; "news"].

(** [array.includes(word)] *)
Definition mem (word : string) (l : list string) : bool :=
  existsb (String.eqb word) l.

Definition is_lower_alnum (c : ascii) : bool :=
  let n := nat_of_ascii c in
  ((97 <=? n) && (n <=? 122) || (48 <=? n) && (n <=? 57))%nat.

(** [/^[a-z0-9]+$/.test(word)] *)
Definition alnum_word (word : string) : bool :=
  negb (String.eqb word "") && Obj.all_chars is_lower_alnum word.

Section Keywords.

(** [natural]'s [WordTokenizer#tokenize]. *)
Variable tokenize : string -> list string.

(** What [require('stopword')] holds under the name [remove], which
    [const { remove: removeStopwords } = require('stopword')] binds to
    [removeStopwords]: a function on token arrays, or [None] for [undefined]
    when the package has no export of that name. *)
Variable remove : option (list string -> list string).

(** [natural.PorterStemmer.stem]. *)
Variable stem : string -> string.

(** [removeStopwords(tokens)]: calling [undefined] throws a [TypeError]. *)
Definition removeStopwords (tokens : list string) : outcome (list string) :=
  match remove with
  | Some f => Ok (f tokens)
  | None => Throw "removeStopwords is not a function"
  end.

Definition keep_word (word : string) : bool :=
  negb (mem word additionalStops)
  && alnum_word word
  && (2 <? String.length word)%nat.

(** [kept.filter(word => ...)] on what [removeStopwords] returned. *)
Definition filteredTokens (kept : list string) : list string :=
  filter keep_word kept.

Definition stemmed (kept : list string) : list string :=
  map stem (filteredTokens kept).

(** [wordFreq[word] = (wordFreq[word] || 0) + 1].  The read goes through the
    prototype chain of the object literal, so a word that names a member of
    [Object.prototype] finds that member instead of a count; the write makes
    an own property, except for [__proto__], whose setter drops the value. *)
Definition count_word (wordFreq : obj) (word : string) : obj :=
  let old :=
    match Obj.assoc word wordFreq with
    | Some v => if Obj.truthy v then v else Num 0
    | None =>
        match Obj.inherited word with
        | Some text => Str text
        | None => Num 0
        end
    end in
  if String.eqb word "__proto__" then wordFreq
  else Obj.set wordFreq word (Obj.plus_one old).

Definition wordFreq (kept : list string) : obj :=
  fold_left count_word (stemmed kept) [].

(** [(a, b) => b[1] - a[1]]; a value that is not a number makes the
    difference [NaN], which [sort] reads as 0.  With such a value among the
    pairs the comparator is not consistent and the order that [sort] leaves
    is up to the engine: the statements below use of the sort only that it
    permutes. *)
Definition by_frequency (a b : string * jsval) : Z :=
  match snd b, snd a with
  | Num y, Num x => y - x
  | _, _ => 0
  end.

Definition extractKeywords (text : option string) (topN : Z)
  : outcome (list (string * jsval)) :=
  match text with
  | None => Ok []
  | Some EmptyString => Ok []
  | Some text =>
      let text := Clean.clean text in
      let tokens := tokenize text in
      match removeStopwords tokens with
      | Throw message => Throw message
      | Ok kept =>
          let wordPairs := Obj.entries (wordFreq kept) in
          let wordPairs := sort_by by_frequency wordPairs in
          Ok (slice0 wordPairs topN)
      end
  end.

End Keywords.

(** The [stopword] package exports [removeStopwords] and the word lists of
    its languages, and nothing named [remove]: the property that line 6 reads
    is [undefined]. *)
Definition stopword_remove : option (list string -> list string) := None.

(* ================================================================= *)
(** ** Deduplicator and recency sort *)

(** [seenTitles.add(t)]: a [Set] keeps insertion order and ignores a value
    it already holds. *)
Definition set_add (t : string) (seen : list string) : list string :=
  if mem t seen then seen else (seen ++ [t])%list.

(** [Array.from(seenTitles).some(seen => titleLower.includes(seen) ||
    seen.includes(titleLower))] *)
Definition isDuplicate (seenTitles : list string) (titleLower : string) : bool :=
  existsb (fun seen => Str.includes titleLower seen || Str.includes seen titleLower)
          seenTitles.


(** [article.title.toLowerCase()] *)
Definition titleLower (a : article) : string := Str.toLowerCase (title a).

(** Two titles stand in the substring relation when one contains the other:
    the test under [some]. *)
Definition related (s t : string) : bool :=
  Str.includes s t || Str.includes t s.

(** One turn of the de-duplication loop on the pair of [seenTitles] and
    [uniqueArticles]. *)
Definition dedup_step (st : list string * list article) (a : article)
  : list string * list article :=
  let '(seenTitles, uniqueArticles) := st in
  let titleLower := titleLower a in
  if isDuplicate seenTitles titleLower then st
  else (set_add titleLower seenTitles, (uniqueArticles ++ [a])%list).

Definition dedup_run (articles : list article) : list string * list article :=
  fold_left dedup_step articles ([], []).

Definition deduplicate (articles : list article) : list article :=
  snd (dedup_run articles).

(** [(a, b) => b.date_obj - a.date_obj] *)
Definition by_date (a b : article) : Z := (date_obj b - date_obj a)%Z.

Definition sortArticles (uniqueArticles : list article) : list article :=
  sort_by by_date uniqueArticles.

(* ================================================================= *)
(** ** Feed fetcher and aggregator *)

Definition essential_feeds : list (string * string) :=
  [("Data Breach",
    "https://news.google.com/rss/search?q=data+breach&hl=en-US&gl=US&ceid=US:en");
   ("Ransomware",
    "https://news.google.com/rss/search?q=ransomware+attack&hl=en-US&gl=US&ceid=US:en");
   ("Data Leak",
    "https://news.google.com/rss/search?q=data+leak&hl=en-US&gl=US&ceid=US:en");
   ("Cybersecurity Incident",
    "https://news.google.com/rss/search?q=cybersecurity+incident&hl=en-US&gl=US&ceid=US:en")].

(** [a || b] on strings that may be absent: the empty string is falsy. *)
Definition js_or (a b : option string) : option string :=
  match a with
  | Some (String _ _) => a
  | _ => b
  end.

(** [a || ""] *)
Definition or_empty (a : option string) : string :=
  match a with
  | Some s => s
  | None => EmptyString
  end.

(** [d < bound] on dates: false when [d] is an Invalid Date. *)
Definition date_lt (d : option Z) (bound : Z) : bool :=
  match d with
  | Some t => (t <? bound)%Z
  | None => false
  end.

(** The relative age shown with an article. *)
Definition timeAgo (timeDiff : Z) : string :=
  let daysAgo := (timeDiff / JsDate.msPerDay)%Z in
  let hoursAgo := (timeDiff / JsDate.msPerHour)%Z in
  if (0 <? daysAgo)%Z
  then Z_to_string daysAgo ++ " day" ++ (if (daysAgo =? 1)%Z then "" else "s") ++ " ago"
  else Z_to_string hoursAgo ++ " hour" ++ (if (hoursAgo =? 1)%Z then "" else "s") ++ " ago".

Section Server.

Variable tokenize : string -> list string.
Variable remove : option (list string -> list string).
Variable stem : string -> string.

(** The time value [new Date(dateStr)] gets from the host's date parser,
    [None] when the string is not recognised. *)
Variable Date_parse : string -> option Z.

(** The clock: the time shown at the n-th read. *)
Variable clock : nat -> Z.

(** The feed behind a URL, at the moment it is asked for. *)
Variable network : nat -> string -> feed_result.

#[local] Open Scope js_scope.

(** [new Date()], [Date.now()] *)
Definition new_Date : M Z :=
  fun w => (Ok (clock (ticks w)), tick w).

(** [await parser.parseURL(url)] *)
Definition parseURL (url : string) : M (option (list entry)) :=
  fun w => match network (ticks w) url with
           | FeedError e => (Throw e, w)
           | Feed items => (Ok items, w)
           end.

(** [await new Promise(resolve => setTimeout(resolve, ms))]: time passes,
    which later clock reads show. *)
Definition delay (ms : Z) : M unit := ret tt.

Definition parseDate (dateStr : string) : M (option Z) :=
  try_catch (ret (Date_parse dateStr))
            (fun _ => t <- new_Date ;; ret (Some t)).


(** [pubDateStr ? parseDate(pubDateStr) : new Date()], with
    [pubDateStr = entry.pubDate || entry.isoDate]. *)
Definition resolve_date (e : entry) : M (option Z) :=
  match js_or (e_pubDate e) (e_isoDate e) with
  | Some (String _ _ as pubDateStr) => parseDate pubDateStr
  | _ => t <- new_Date ;; ret (Some t)
  end.

(** The text of an entry that [extractKeywords] is given. *)
Definition entry_content (cleanTitle : string) (e : entry) : string :=
  let summary := or_empty (js_or (js_or (e_content e) (e_contentSnippet e))
                                 (Some EmptyString)) in
  cleanTitle ++ " " ++ summary.

(** The object pushed for an entry dated [t] and processed at [currentTime],
    once [extractKeywords] has returned [keywords]. *)
Definition pushed_article (searchTerm cleanTitle source : string) (e : entry)
  (t currentTime : Z) (keywords : list (string * jsval)) : article :=
  let pubDate := hd EmptyString (Str.split (JsDate.toISOString t) "T") in
  let timeDiff := (currentTime - t)%Z in
  let link := or_empty (e_link e) in
  let keywordsStr := Str.join (map fst keywords) ", " in
  {| search_term := searchTerm;
     title := cleanTitle;
     pub_date := pubDate;
     time_ago := timeAgo timeDiff;
     date_obj := t;
     link := link;
     source := source;
     keywords := keywordsStr |}.

(** From [pubDate] to [articles.push]: the call of [extractKeywords] may
    throw, and then nothing is pushed. *)
Definition make_article (searchTerm cleanTitle source : string) (e : entry)
  (t currentTime : Z) : outcome article :=
  match extractKeywords tokenize remove stem
                        (Some (entry_content cleanTitle e)) 5 with
  | Throw message => Throw message
  | Ok keywords =>
      Ok (pushed_article searchTerm cleanTitle source e t currentTime keywords)
  end.

(** The body of the loop over the entries of a feed, inside its [try]:
    [None] is the [continue] of the recency test; the [throw]s are the
    [RangeError] of [pubDateObj.toISOString()] on an Invalid Date and what
    [extractKeywords] throws. *)
Definition process_entry (searchTerm : string) (oneWeekAgo : Z) (e : entry)
  : M (option article) :=
  let originalTitle := or_empty (e_title e) in
  let '(cleanTitle, source) := extractSourceFromTitle originalTitle in
  pubDateObj <- resolve_date e ;;
  if date_lt pubDateObj oneWeekAgo then ret None
  else
    match pubDateObj with
    | None => throw "Invalid time value"
    | Some t =>
        currentTime <- new_Date ;;
        match make_article searchTerm cleanTitle source e t currentTime with
        | Throw message => throw message
        | Ok article => ret (Some article)
        end
    end.

(** One entry with its [try] / [catch]: an exception is logged and the entry
    is skipped. *)
Definition entry_step (searchTerm : string) (oneWeekAgo : Z)
  (articles : list article) (e : entry) : M (list article) :=
  try_catch
    (r <- process_entry searchTerm oneWeekAgo e ;;
     match r with
     | Some a => ret (articles ++ [a])%list
     | None => ret articles
     end)
    (fun _ => ret articles).

(** One feed with its [try] / [catch]: a failing feed contributes nothing. *)
Definition feed_step (oneWeekAgo : Z) (articles : list article)
  (feed : string * string) : M (list article) :=
  let '(searchTerm, url) := feed in
  try_catch
    (items <- parseURL url ;;
     match items with
     | None | Some [] => ret articles
     | Some items =>
         articles <- for_each items (entry_step searchTerm oneWeekAgo) articles ;;
         delay 1000 ;;;
         ret articles
     end)
    (fun _ => ret articles).

(** The articles gathered from all feeds, before de-duplication. *)
Definition collect : M (list article) :=
  now <- new_Date ;;
  let oneWeekAgo := JsDate.addDays now (-7) in
  for_each essential_feeds (feed_step oneWeekAgo) [].

Definition fetchGoogleNews : M (list article) :=
  articles <- collect ;;
  let uniqueArticles := deduplicate articles in
  let sortedArticles := sortArticles uniqueArticles in
  ret sortedArticles.


(* ----------------------------------------------------------------- *)
(** *** Report renderer *)

(** The document for an empty result. *)
Definition no_articles_document : string :=
  String.concat nl
    [EmptyString;
     "      <!DOCTYPE html>";
     "      <html>";
     "      <head>";
     "          <meta charset=" ++ dq ++ "UTF-8" ++ dq ++ ">";
     "          <meta name=" ++ dq ++ "viewport" ++ dq ++ " content=" ++ dq ++ "width=device-width, initial-scale=1.0" ++ dq ++ ">";
     "          <title>Weekly Data Breach News - No Articles Found</title>";
     "          <style>";
     "              body { font-family: Arial, sans-serif; line-height: 1.6; color: #333; max-width: 800px; margin: 0 auto; padding: 20px; }";
     "              h1 { color: #4285F4; }";
     "              .message { background-color: #f8f9fa; padding: 20px; border-radius: 5px; margin: 20px 0; }";
     "          </style>";
     "      </head>";
     "      <body>";
     "          <h1>Weekly Data Breach News</h1>";
     "          <div class=" ++ dq ++ "message" ++ dq ++ ">";
     "              <h2>No data breach articles found from the past week</h2>";
     "              <p>Try running the script again later, or check your internet connection.</p>";
     "          </div>";
     "      </body>";
     "      </html>";
     "    "].

(** The report down to the opening of the table body. *)
Definition report_head (dateRange : string) (articles : list article) : string :=
  String.concat nl
    [EmptyString;
     "    <!DOCTYPE html>";
     "    <html>";
     "    <head>";
     "        <meta charset=" ++ dq ++ "UTF-8" ++ dq ++ ">";
     "        <meta name=" ++ dq ++ "viewport" ++ dq ++ " content=" ++ dq ++ "width=device-width, initial-scale=1.0" ++ dq ++ ">";
     "        <title>Weekly Data Breach News - " ++ dateRange ++ "</title>";
     "        <style>";
     "            body { font-family: Arial, sans-serif; line-height: 1.6; color: #333; max-width: 1200px; margin: 0 auto; padding: 20px; }";
     "            h1 { color: #4285F4; padding-bottom: 10px; border-bottom: 1px solid #eee; }";
     "            .container { overflow-x: auto; }";
     "            table { border-collapse: collapse; width: 100%; margin: 20px 0; }";
     "            th { background-color: #4285F4; color: white; padding: 10px; text-align: left; border: 1px solid #ddd; }";
     "            td { padding: 10px; border: 1px solid #ddd; vertical-align: top; }";
     "            tr:nth-child(even) { background-color: #f9f9f9; }";
     "            tr:hover { background-color: #f1f1f1; }";
     "            a { color: #4285F4; text-decoration: none; }";
     "            a:hover { text-decoration: underline; }";
     "            .keywords { font-style: italic; color: #666; }";
     "            .source { font-weight: bold; color: #d32f2f; }";
     "            .search-term { color: #388e3c; }";
     "            .date { white-space: nowrap; }";
     "            .time-ago { font-size: 0.85em; color: #666; display: block; }";
     "            .footer { margin-top: 30px; padding-top: 15px; border-top: 1px solid #eee; font-size: 0.9em; color: #666; text-align: center; }";
     "        </style>";
     "    </head>";
     "    <body>";
     "        <h1>Weekly Data Breach News</h1>";
     "        <p>Data breach and cybersecurity news from " ++ dateRange ++ "</p>";
     "        <p>Found " ++ Z_to_string (Z.of_nat (List.length articles)) ++ " unique articles from the past week.</p>";
     "        ";
     "        <div class=" ++ dq ++ "container" ++ dq ++ ">";
     "            <table>";
     "                <thead>";
     "                    <tr>";
     "                        <th>Date</th>";
     "                        <th>Source</th>";
     "                        <th>Title</th>";
     "                        <th>Keywords</th>";
     "                        <th>Search Term</th>";
     "                    </tr>";
     "                </thead>";
     "                <tbody>";
     "  "].

(** One table row. *)
Definition report_row (article : article) : string :=
  String.concat nl
    [EmptyString;
     "        <tr>";
     "            <td class=" ++ dq ++ "date" ++ dq ++ ">";
     "                " ++ pub_date article;
     "                <span class=" ++ dq ++ "time-ago" ++ dq ++ ">" ++ time_ago article ++ "</span>";
     "            </td>";
     "            <td class=" ++ dq ++ "source" ++ dq ++ ">" ++ source article ++ "</td>";
     "            <td><a href=" ++ dq ++ link article ++ dq ++ " target=" ++ dq ++ "_blank" ++ dq ++ ">" ++ title article ++ "</a></td>";
     "            <td class=" ++ dq ++ "keywords" ++ dq ++ ">" ++ keywords article ++ "</td>";
     "            <td class=" ++ dq ++ "search-term" ++ dq ++ ">" ++ search_term article ++ "</td>";
     "        </tr>";
     "    "].

(** The closing of the table and the footer. *)
Definition report_foot (generated : string) : string :=
  String.concat nl
    [EmptyString;
     "                </tbody>";
     "            </table>";
     "        </div>";
     "        ";
     "        <div class=" ++ dq ++ "footer" ++ dq ++ ">";
     "            <p>This weekly report was generated on " ++ generated ++ "</p>";
     "        </div>";
     "    </body>";
     "    </html>";
     "  "].

(** [iso.replace('T', ' ')]: the first ['T'] only. *)
Fixpoint replace_T (iso : string) : string :=
  match iso with
  | EmptyString => EmptyString
  | String c r => if Ascii.eqb c "T" then String " " r else String c (replace_T r)
  end.

Definition generateHtmlReport (articles : option (list article)) : M string :=
  match articles with
  | None | Some [] => ret no_articles_document
  | Some articles =>
      endDate <- new_Date ;;
      startDate <- new_Date ;;
      let startDate := JsDate.addDays startDate (-7) in
      let dateRange :=
        JsDate.formatDate startDate ++ " - " ++ JsDate.formatFullDate endDate in
      let html := report_head dateRange articles in
      let html := fold_left (fun html article => html ++ report_row article)
                            articles html in
      generated <- new_Date ;;
      let html :=
        html ++ report_foot (Str.take 19 (replace_T (JsDate.toISOString generated))) in
      ret html
  end.

(* ----------------------------------------------------------------- *)
(** *** HTTP surface *)

(** [newsCache.data && newsCache.timestamp &&
     (now - newsCache.timestamp < newsCache.expiresIn)]: the cached result
    when the test passes. *)
Definition cache_valid (c : cache) (now : Z) : option result :=
  match data c, timestamp c with
  | Some d, Some ts =>
      if negb (ts =? 0)%Z && (now - ts <? expiresIn c)%Z then Some d else None
  | _, _ => None
  end.

(** [newsCache.data = result; newsCache.timestamp = now] *)
Definition update_cache (r : result) (now : Z) : M unit :=
  c <- get_cache ;;
  set_cache {| data := Some r; timestamp := Some now; expiresIn := expiresIn c |}.

(** [toISOString().split('T')[0]] *)
Definition isoDatePart (t : Z) : string :=
  hd EmptyString (Str.split (JsDate.toISOString t) "T").

(** The result object built after a fetch. *)
Definition make_result (articles : list article) : M result :=
  generated <- new_Date ;;
  start <- new_Date ;;
  finish <- new_Date ;;
  ret {| result_meta :=
           {| generated_at := JsDate.toISOString generated;
              article_count := List.length articles;
              sources := List.length (nodup string_dec (map source articles));
              meta_date_range :=
                {| dr_start := isoDatePart (start - 7 * 24 * 60 * 60 * 1000)%Z;
                   dr_end := isoDatePart finish |} |};
         articles := articles |}.

(** The handler of [GET /api/breach-news]; [fetch] is the call
    [await fetchGoogleNews()]. *)
Definition api_breach_news (fetch : M (list article)) : M response :=
  try_catch
    (now <- new_Date ;;
     c <- get_cache ;;
     match cache_valid c now with
     | Some d => ret {| status := 200; resp_body := Json d |}
     | None =>
         articles <- fetch ;;
         result <- make_result articles ;;
         update_cache result now ;;;
         ret {| status := 200; resp_body := Json result |}
     end)
    (fun message => ret {| status := 500; resp_body := JsonError message |}).

(** The handler of [GET /report]. *)
Definition report (fetch : M (list article)) : M response :=
  try_catch
    (now <- new_Date ;;
     c <- get_cache ;;
     articles <- match cache_valid c now with
                 | Some d => ret (articles d)
                 | None =>
                     articles <- fetch ;;
                     result <- make_result articles ;;
                     update_cache result now ;;;
                     ret articles
                 end ;;
     html <- generateHtmlReport (Some articles) ;;
     ret {| status := 200; resp_body := Html html |})
    (fun message =>
       ret {| status := 500;
              resp_body := Html ("<h1>Error</h1><p>" ++ message ++ "</p>") |}).

(** The two routes as the server mounts them. *)
Definition get_api_breach_news : M response := api_breach_news fetchGoogleNews.
Definition get_report : M response := report fetchGoogleNews.

End Server.

(* ================================================================= *)
(** ** Vocabulary of the statements *)

(** Every article of the list is dated at or after [oneWeekAgo]. *)
Definition in_window (oneWeekAgo : Z) (articles : list article) : Prop :=
  Forall (fun a => (oneWeekAgo <= date_obj a)%Z) articles.

(** A computation that leaves the cache alone and does not turn the clock
    back. *)
Definition frames {A} (m : M A) : Prop :=
  forall w r w', m w = (r, w') ->
    newsCache w' = newsCache w /\ (ticks w <= ticks w')%nat.

(** The world in which a later request arrives: the cache as it was left,
    the clock at its [n]-th read. *)
Definition later (w : world) (n : nat) : world :=
  {| ticks := n; newsCache := newsCache w |}.

(** The result object built from [articles] when the three clock reads that
    follow the fetch are the reads [n], [n + 1] and [n + 2]. *)
Definition result_at (clock : nat -> Z) (articles : list article) (n : nat)
  : result :=
  {| result_meta :=
       {| generated_at := JsDate.toISOString (clock n);
          article_count := List.length articles;
          sources := List.length (nodup string_dec (map source articles));
          meta_date_range :=
            {| dr_start :=
                 hd EmptyString
                    (Str.split (JsDate.toISOString
                                  (clock (S n) - 7 * 24 * 60 * 60 * 1000)%Z) "T");
               dr_end :=
                 hd EmptyString
                    (Str.split (JsDate.toISOString (clock (S (S n)))) "T") |} |};
     articles := articles |}.

(** The report for a non-empty list, as a function of the list and of the
    three times [generateHtmlReport] reads: [endDate], [startDate] before it
    is moved back by a week, and the time of the footer. *)
Definition report_document (articles : list article)
  (endDate startDate generated : Z) : string :=
  let dateRange :=
    JsDate.formatDate (JsDate.addDays startDate (-7)) ++ " - "
    ++ JsDate.formatFullDate endDate in
  fold_left (fun html article => html ++ report_row article) articles
            (report_head dateRange articles)
  ++ report_foot (Str.take 19 (replace_T (JsDate.toISOString generated))).

(* ================================================================= *)
(** ** A small host to run the server on

    Stand-ins for the packages and for the host, to evaluate the definitions
    on examples.  The tokenizer cuts at whatever is not a letter, a digit or
    an underscore; the [stopword] package is the published one, without an
    export named [remove]; the stemmer is the identity; the date parser
    knows the ISO strings of the examples and rejects what is not a date at
    all. *)

Module Demo.

Definition word_char (c : ascii) : bool :=
  let n := nat_of_ascii c in
  ((65 <=? n) && (n <=? 90) || (97 <=? n) && (n <=? 122)
   || (48 <=? n) && (n <=? 57) || (n =? 95))%nat.

Fixpoint tokens_from (cur : string) (s : string) : list string :=
  match s with
  | EmptyString => if String.eqb cur "" then [] else [cur]
  | String c r =>
      if word_char c then tokens_from (cur ++ String c EmptyString) r
      else if String.eqb cur "" then tokens_from "" r
           else cur :: tokens_from "" r
  end.

Definition tokenize (text : string) : list string := tokens_from "" text.

Definition stem (word : string) : string := word.

Definition Date_parse (s : string) : option Z :=
  Obj.assoc s
    [("2024-01-02T00:00:00.000Z", 1704153600000%Z);
     ("2023-12-31T00:00:00.000Z", 1703980800000%Z);
     ("2024-01-07T21:00:00.000Z", 1704661200000%Z);
     ("2030-01-01T00:00:00.000Z", 1893456000000%Z)].

(** The clock starts on 2024-01-08 at 00:00:00 UTC and each read comes one
    second after the one before. *)
Definition clock (n : nat) : Z := (1704672000000 + 1000 * Z.of_nat n)%Z.

Definition item (t : string) (d : option string) : entry :=
  {| e_title := Some t; e_pubDate := d; e_isoDate := None;
     e_content := None; e_contentSnippet := None; e_link := None |}.

(** A network on which only the first feed answers, with the given items. *)
Definition network_of (items : list entry) (n : nat) (url : string) : feed_result :=
  if String.eqb url (snd (hd ("", "") essential_feeds))
  then Feed (Some items) else FeedError "getaddrinfo ENOTFOUND news.google.com".

Definition world0 : world := {| ticks := 0; newsCache := newsCache0 |}.

Definition extractKeywords := extractKeywords tokenize stopword_remove stem.

Definition fetchGoogleNews (items : list entry) : M (list article) :=
  fetchGoogleNews tokenize stopword_remove stem Date_parse clock
                  (network_of items).

Definition entry_step :=
  entry_step tokenize stopword_remove stem Date_parse clock.

(** The articles of an outcome. *)
Definition fetched (o : outcome (list article)) : list article :=
  match o with
  | Ok l => l
  | Throw _ => []
  end.

(** An item dated three hours before the clock starts, one dated in 2030,
    one without a date string and one whose date string is not a date. *)
Definition recent_item : entry :=
  item "Breach Hits Firm - Example News" (Some "2024-01-07T21:00:00.000Z").

Definition future_item : entry :=
  item "Breach Hits Firm - Example News" (Some "2030-01-01T00:00:00.000Z").

Definition dateless_item : entry :=
  item "Breach Hits Firm - Example News" None.

Definition undated_item : entry :=
  item "Breach Hits Firm - Example News" (Some "not a date").

(** Three requests to [/api/breach-news]: the first at the start of the
    clock, the second 1800 reads (30 minutes) and the third 3660 reads
    (61 minutes) after it. *)
Definition fetch1 : M (list article) := fetchGoogleNews [recent_item].

Definition first : outcome response * world :=
  api_breach_news clock fetch1 world0.

Definition second : outcome response * world :=
  api_breach_news clock fetch1 (later (snd first) 1800).

Definition third : outcome response * world :=
  api_breach_news clock fetch1 (later (snd second) 3660).

(** An article with a given title. *)
Definition titled (t : string) : article :=
  {| search_term := "Data Breach"; title := t; pub_date := "2024-01-07";
     time_ago := "3 hours ago"; date_obj := 1704661200000; link := "";
     source := "Example News"; keywords := "" |}.

(** The article of an entry without a title. *)
Definition untitled : article :=
  {| search_term := "Data Breach"; title := ""; pub_date := "2024-01-08";
     time_ago := "0 hours ago"; date_obj := 1704672000000; link := "";
     source := "Unknown"; keywords := "" |}.

(** An article for the report. *)
Definition sample : article :=
  {| search_term := "Data Breach"; title := "Breach Hits Firm";
     pub_date := "2024-01-07"; time_ago := "3 hours ago";
     date_obj := 1704661200000; link := "https://example.com/a";
     source := "Example News"; keywords := "breach, firm" |}.

End Demo.

(* ================================================================= *)
(** ** Health check *)

(** The object sent by [GET /health]. *)
Record health_report := {
  health_status : string;
  health_timestamp : string;
  cache_exists : bool;
  cache_age : string
}.

Section Health.

Variable clock : nat -> Z.

#[local] Open Scope js_scope.

(** The handler of [GET /health]: the time of the answer, whether the cache
    holds data, and the age of the cache in whole seconds, ['N/A'] when
    [newsCache.timestamp] is falsy. *)
Definition health : M health_report :=
  now <- new_Date clock ;;
  c <- get_cache ;;
  let exists_ := match data c with Some _ => true | None => false end in
  age <- match timestamp c with
         | Some ts =>
             if (ts =? 0)%Z then ret "N/A"
             else t <- new_Date clock ;;
                  ret (Z_to_string ((t - ts) / 1000) ++ " seconds")
         | None => ret "N/A"
         end ;;
  ret {| health_status := "ok";
         health_timestamp := JsDate.toISOString now;
         cache_exists := exists_;
         cache_age := age |}.

End Health.

(* ================================================================= *)
(** ** More vocabulary *)

(** A network on which no feed has an item: every answer is a rejection, a
    feed without [items] or a feed with an empty [items]. *)
Definition quiet (network : nat -> string -> feed_result) : Prop :=
  forall n url,
    match network n url with
    | Feed (Some (_ :: _)) => False
    | _ => True
    end.

(** No two articles of the list have titles in the substring relation. *)
Definition unrelated_titles (l : list article) : Prop :=
  ForallOrdPairs (fun a b => related (titleLower a) (titleLower b) = false) l.

(** The rows of the report, one after the other. *)
Definition report_rows (articles : list article) : string :=
  String.concat EmptyString (map report_row articles).

(** The white space of the cleaned text is made of single spaces between
    other code units. *)
Fixpoint single_spaced (s : string) : bool :=
  match s with
  | EmptyString => true
  | String c r =>
      (if Str.is_space c
       then Ascii.eqb c " "
            && match r with
               | EmptyString => false
               | String d _ => negb (Str.is_space d)
               end
       else true)
      && single_spaced r
  end.

(** The text does not start with white space. *)
Definition no_leading_space (s : string) : bool :=
  match s with
  | EmptyString => true
  | String c _ => negb (Str.is_space c)
  end.

(** The white space of the text is made of single spaces, each followed by
    a code unit that is not white space or by the end of the text. *)
Fixpoint spaced (s : string) : bool :=
  match s with
  | EmptyString => true
  | String c r =>
      (if Str.is_space c
       then Ascii.eqb c " "
            && match r with
               | EmptyString => true
               | String d _ => negb (Str.is_space d)
               end
       else true)
      && spaced r
  end.

(** Somewhere in the text [http] is followed by a code unit that is not
    white space: the text has a match of [/http\S+/]. *)
Fixpoint has_url (s : string) : bool :=
  match s with
  | EmptyString => false
  | String _ r =>
      prefix "http" s && Clean.nonspace_follows (Str.drop 4 s) || has_url r
  end.

(** The line goes on to a ['>']: [.*?>] matches at the start of the text. *)
Fixpoint closes_on_line (s : string) : bool :=
  match s with
  | EmptyString => false
  | String c r =>
      if Ascii.eqb c ">" then true
      else if Str.is_newline c then false
      else closes_on_line r
  end.

(** Somewhere in the text a ['<'] is followed on its line by a ['>']: the
    text has a match of [/<.*?>/]. *)
Fixpoint has_tag (s : string) : bool :=
  match s with
  | EmptyString => false
  | String c r => Ascii.eqb c "<" && closes_on_line r || has_tag r
  end.

(** A code unit that neither closes a tag nor ends the line. *)
Definition inside_tag (c : ascii) : bool :=
  negb (Ascii.eqb c ">") && negb (Str.is_newline c).

(** A second host for the examples: every feed is down. *)
Module Outage.

Definition network (n : nat) (url : string) : feed_result :=
  FeedError "getaddrinfo ENOTFOUND news.google.com".

Definition fetchGoogleNews : M (list article) :=
  fetchGoogleNews Demo.tokenize stopword_remove Demo.stem Demo.Date_parse
                  Demo.clock network.

End Outage.

(* ================================================================= *)
(** * Properties *)

(** ** Strings *)

Section StringFacts.

Lemma append_nil_r (s : string) : s ++ "" = s.
Proof. induction s as [|c s IH]; simpl; [reflexivity | now rewrite IH]. Qed.

Lemma append_assoc (a b c : string) : (a ++ b) ++ c = a ++ b ++ c.
Proof. induction a as [|x a IH]; simpl; [reflexivity | now rewrite IH]. Qed.

Lemma length_append (a b : string) :
  String.length (a ++ b) = String.length a + String.length b.
Proof. induction a as [|x a IH]; simpl; [reflexivity | now rewrite IH]. Qed.

Lemma append_inv_head (a b c : string) : a ++ b = a ++ c -> b = c.
Proof. induction a as [|x a IH]; simpl; intros H; [exact H | injection H; auto]. Qed.

Lemma prefix_nil (s : string) : prefix "" s = true.
Proof. now destruct s. Qed.

Lemma prefix_append (p r : string) : prefix p (p ++ r) = true.
Proof.
  induction p as [|c p IH]; simpl; [apply prefix_nil|].
  destruct (ascii_dec c c) as [_|n]; [exact IH | now destruct n].
Qed.

Lemma prefix_inv (p s : string) :
  prefix p s = true -> exists r, s = p ++ r.
Proof.
  revert s; induction p as [|c p IH]; intros s H.
  - now exists s.
  - destruct s as [|d s]; simpl in H; [discriminate|].
    destruct (ascii_dec c d) as [->|]; [|discriminate].
    destruct (IH _ H) as [r ->]. now exists r.
Qed.

Lemma prefix_iff (p s : string) :
  prefix p s = true <-> exists r, s = p ++ r.
Proof.
  split; [apply prefix_inv | intros [r ->]; apply prefix_append].
Qed.

Lemma includes_nil (sub : string) : Str.includes "" sub = prefix sub "".
Proof. unfold Str.includes. now destruct (prefix sub ""). Qed.

Lemma includes_cons (c : ascii) (s sub : string) :
  Str.includes (String c s) sub
  = prefix sub (String c s) || Str.includes s sub.
Proof.
  change (Str.includes (String c s) sub)
    with (if prefix sub (String c s) then true else Str.includes s sub).
  now destruct (prefix sub (String c s)).
Qed.

Lemma includes_iff (s sub : string) :
  Str.includes s sub = true <-> exists a b, s = a ++ sub ++ b.
Proof.
  induction s as [|c s IH].
  - rewrite includes_nil, prefix_iff. split.
    + intros [r E]. now exists "", r.
    + intros (a & b & H). destruct a; [|discriminate]. now exists b.
  - rewrite includes_cons, orb_true_iff, IH, prefix_iff. split.
    + intros [[r E]|(a & b & ->)]; [now exists "", r | now exists (String c a), b].
    + intros (a & b & H). destruct a as [|x a]; simpl in H.
      * left. now exists b.
      * right. injection H as _ ->. now exists a, b.
Qed.

Lemma includes_false_iff (s sub : string) :
  Str.includes s sub = false <-> forall a b, s <> a ++ sub ++ b.
Proof.
  split.
  - intros H a b E.
    assert (Str.includes s sub = true) by (apply includes_iff; eauto).
    congruence.
  - intros H. destruct (Str.includes s sub) eqn:E; [|reflexivity].
    apply includes_iff in E. destruct E as (a & b & E). now destruct (H a b).
Qed.

(** The empty string is found in every string. *)
Lemma includes_empty (s : string) : Str.includes s "" = true.
Proof. destruct s; reflexivity. Qed.

Lemma includes_refl (s : string) : Str.includes s s = true.
Proof.
  apply includes_iff. exists "", "". simpl. now rewrite append_nil_r.
Qed.

Lemma includes_empty_l (sub : string) :
  Str.includes "" sub = true -> sub = "".
Proof.
  intros H. apply includes_iff in H. destruct H as (a & b & H).
  destruct a; [|discriminate]. destruct sub; [reflexivity|discriminate].
Qed.

End StringFacts.

(** ** Title splitter *)

Section Split.

Variables (a : ascii) (sep' : string).
Let sep := String a sep'.

Lemma split_from_skip (x r : string) :
  Str.split_from sep (String.length x) (x ++ r) = Str.split_from sep 0 r.
Proof. induction x as [|c x IH]; simpl; [reflexivity | exact IH]. Qed.

Lemma split_nil : Str.split "" sep = [""].
Proof. reflexivity. Qed.

Lemma split_match (r : string) :
  Str.split (sep ++ r) sep = "" :: Str.split r sep.
Proof.
  unfold Str.split.
  change (sep ++ r) with (String a (sep' ++ r)).
  change (Str.split_from sep 0 (String a (sep' ++ r)))
    with (if prefix sep (String a (sep' ++ r))
          then "" :: Str.split_from sep (String.length sep - 1) (sep' ++ r)
          else Str.cons_head a (Str.split_from sep 0 (sep' ++ r))).
  change (String a (sep' ++ r)) with (sep ++ r).
  rewrite prefix_append.
  replace (String.length sep - 1) with (String.length sep')
    by (unfold sep; simpl; lia).
  now rewrite split_from_skip.
Qed.

Lemma split_nomatch (c : ascii) (r : string) :
  prefix sep (String c r) = false ->
  Str.split (String c r) sep = Str.cons_head c (Str.split r sep).
Proof.
  intros H. unfold Str.split.
  change (Str.split_from sep 0 (String c r))
    with (if prefix sep (String c r)
          then "" :: Str.split_from sep (String.length sep - 1) r
          else Str.cons_head c (Str.split_from sep 0 r)).
  now rewrite H.
Qed.

(** Induction along the scan of [split]. *)
Lemma split_ind (P : string -> Prop) :
  P "" ->
  (forall r, P r -> P (sep ++ r)) ->
  (forall c r, prefix sep (String c r) = false -> P r -> P (String c r)) ->
  forall s, P s.
Proof.
  intros H0 Hm Hn s.
  remember (String.length s) as n eqn:En.
  revert s En. induction n as [n IH] using lt_wf_ind. intros s En.
  destruct s as [|c r]; [exact H0|].
  destruct (prefix sep (String c r)) eqn:E.
  - apply prefix_inv in E. destruct E as [t E]. rewrite E. apply Hm.
    apply (IH (String.length t)); [|reflexivity].
    rewrite En, E, length_append. unfold sep. simpl. lia.
  - apply Hn; [exact E|]. apply (IH (String.length r)); [|reflexivity].
    rewrite En. simpl. lia.
Qed.

Lemma split_not_nil (s : string) : Str.split s sep <> [].
Proof.
  induction s as [|r IH|c r E IH] using split_ind.
  - discriminate.
  - rewrite split_match. discriminate.
  - rewrite (split_nomatch _ _ E).
    destruct (Str.split r sep); discriminate.
Qed.

Lemma concat_cons (x : string) (ps : list string) :
  ps <> [] -> String.concat sep (x :: ps) = x ++ sep ++ String.concat sep ps.
Proof. destruct ps; [congruence | reflexivity]. Qed.

Lemma concat_cons_head (c : ascii) (ps : list string) :
  ps <> [] ->
  String.concat sep (Str.cons_head c ps) = String c (String.concat sep ps).
Proof.
  destruct ps as [|p [|q ps]]; [congruence | reflexivity | reflexivity].
Qed.

(** Joining the pieces gives the string back. *)
Lemma join_split (s : string) : Str.join (Str.split s sep) sep = s.
Proof.
  unfold Str.join.
  induction s as [|r IH|c r E IH] using split_ind.
  - reflexivity.
  - rewrite split_match, concat_cons by apply split_not_nil.
    now rewrite IH.
  - rewrite (split_nomatch _ _ E), concat_cons_head by apply split_not_nil.
    now rewrite IH.
Qed.

Lemma split_head_prefix (s : string) :
  exists ps t, Str.split s sep = ps /\ s = hd "" ps ++ t.
Proof.
  exists (Str.split s sep).
  pose proof (join_split s) as J. pose proof (split_not_nil s) as N.
  unfold Str.join in J.
  destruct (Str.split s sep) as [|p ps]; [congruence|].
  destruct ps as [|q ps].
  - exists "". simpl in *. now rewrite append_nil_r.
  - exists (sep ++ String.concat sep (q :: ps)). split; [reflexivity|].
    now rewrite <- J.
Qed.

(** No piece contains the separator. *)
Lemma split_pieces_free (s : string) :
  Forall (fun p => Str.includes p sep = false) (Str.split s sep).
Proof.
  induction s as [|r IH|c r E IH] using split_ind.
  - now repeat constructor.
  - rewrite split_match. constructor; [reflexivity | exact IH].
  - rewrite (split_nomatch _ _ E).
    destruct (split_head_prefix r) as (ps & t & Eps & Er).
    rewrite Eps in *. destruct ps as [|p ps].
    + now destruct (split_not_nil r).
    + simpl in Er. apply Forall_cons_iff in IH. destruct IH as [Hp Hps].
      constructor; [|exact Hps].
      rewrite includes_cons, Hp, orb_false_r.
      destruct (prefix sep (String c p)) eqn:F; [|reflexivity].
      apply prefix_inv in F. destruct F as [u F].
      assert (prefix sep (String c r) = true) as G.
      { apply prefix_iff. exists (u ++ t).
        rewrite Er. change (String c (p ++ t)) with (String c p ++ t).
        now rewrite F, append_assoc. }
      congruence.
Qed.

Lemma split_free (s : string) :
  Str.includes s sep = false -> Str.split s sep = [s].
Proof.
  induction s as [|r IH|c r E IH] using split_ind; intros H.
  - reflexivity.
  - assert (Str.includes (sep ++ r) sep = true) as G
      by (apply includes_iff; now exists "", r).
    congruence.
  - rewrite includes_cons, orb_false_iff in H. destruct H as [_ H].
    now rewrite (split_nomatch _ _ E), (IH H).
Qed.

Lemma split_singleton (s p : string) :
  Str.split s sep = [p] -> Str.includes s sep = false.
Proof.
  intros H. pose proof (join_split s) as J. pose proof (split_pieces_free s) as F.
  rewrite H in J, F. simpl in J. subst p. now inversion F.
Qed.

Lemma concat_snoc (ps : list string) (l : string) :
  ps <> [] ->
  String.concat sep (ps ++ [l])%list = String.concat sep ps ++ sep ++ l.
Proof.
  induction ps as [|p ps IH]; [congruence|]. intros _.
  destruct ps as [|q ps]; [reflexivity|].
  change ((p :: q :: ps) ++ [l])%list with (p :: ((q :: ps) ++ [l]))%list.
  rewrite concat_cons by (simpl; discriminate).
  rewrite IH by discriminate.
  rewrite (concat_cons p (q :: ps)) by discriminate.
  now rewrite !append_assoc.
Qed.

End Split.

Section TitleSplitter.

Lemma take_length_append (t r : string) : Str.take (String.length t) (t ++ r) = t.
Proof. induction t as [|c t IH]; simpl; [reflexivity | now rewrite IH]. Qed.

Lemma drop_length_append (t r : string) : Str.drop (String.length t) (t ++ r) = r.
Proof. induction t as [|c t IH]; simpl; [reflexivity | exact IH]. Qed.

Lemma lastIndexOf_none (s sub : string) :
  Str.includes s sub = false -> Str.lastIndexOf s sub = None.
Proof.
  induction s as [|c s IH].
  - rewrite includes_nil. simpl. now intros ->.
  - rewrite includes_cons, orb_false_iff. intros [P I].
    cbn [Str.lastIndexOf]. now rewrite (IH I), P.
Qed.

(** An occurrence with no later occurrence is the last one. *)
Lemma lastIndexOf_at (t sub : string) (c : ascii) (u : string) :
  prefix sub (String c u) = true ->
  Str.includes u sub = false ->
  Str.lastIndexOf (t ++ String c u) sub = Some (String.length t).
Proof.
  intros P I. induction t as [|x t IH].
  - cbn [append Str.lastIndexOf]. now rewrite (lastIndexOf_none _ _ I), P.
  - cbn [append Str.lastIndexOf String.length]. now rewrite IH.
Qed.

(** What [extractSourceFromTitle] returns when the separator is present. *)
Lemma extractSourceFromTitle_cut (raw : string) :
  Str.includes raw " - " = true ->
  exists title source,
    extractSourceFromTitle raw = (title, source) /\
    raw = title ++ " - " ++ source /\
    Str.includes source " - " = false /\
    source = last (Str.split raw " - ") "" /\
    title = Str.join (removelast (Str.split raw " - ")) " - ".
Proof.
  intros H. unfold extractSourceFromTitle, pop. rewrite H.
  exists (Str.join (removelast (Str.split raw " - ")) " - "),
         (last (Str.split raw " - ") "").
  pose proof (join_split " " "- " raw) as J.
  pose proof (split_not_nil " " "- " raw) as N.
  pose proof (split_pieces_free " " "- " raw) as F.
  assert (removelast (Str.split raw " - ") <> []) as M.
  { intros E. destruct (Str.split raw " - ") as [|p [|q ps]] eqn:Eps.
    - congruence.
    - apply split_singleton in Eps. congruence.
    - simpl in E. destruct ps; discriminate. }
  repeat split; try reflexivity.
  - rewrite <- J at 1. unfold Str.join.
    rewrite (app_removelast_last "" N) at 1.
    apply (concat_snoc " " "- "). exact M.
  - rewrite Forall_forall in F. apply F.
    rewrite (app_removelast_last "" N) at 2.
    apply in_or_app. right. now left.
Qed.

(** C6, the claim as written fails when two occurrences of the separator
    overlap: in ["a - - b"] the last occurrence of [" - "] starts at index 3,
    but [split] has consumed its leading space with the occurrence at index 1,
    so the source is ["- b"] and not ["b"]. *)
Lemma extractSourceFromTitle_overlap_counterexample :
  Str.includes "a - - b" " - " = true /\
  Str.lastIndexOf "a - - b" " - " = Some 3 /\
  split_at_last_separator "a - - b" = ("a -", "b") /\
  extractSourceFromTitle "a - - b" = ("a", "- b") /\
  extractSourceFromTitle "a - - b" <> split_at_last_separator "a - - b".
Proof. repeat split; try reflexivity. discriminate. Qed.

(** C6 (amended): without the separator the title is returned unchanged with
    the source ["Unknown"]; with it, the string is cut at the occurrences that
    [split] finds from left to right without overlap, the source is the piece
    after the last cut and contains no separator, the title is what precedes
    that cut (the earlier pieces rejoined), so that title, separator and source
    concatenate to the input; and whenever the input has no two overlapping
    occurrences (no [" - - "]), the cut is the last occurrence of the
    separator, as the specification words it. *)
Theorem extractSourceFromTitle_spec (raw : string) :
  (Str.includes raw " - " = false ->
     extractSourceFromTitle raw = (raw, "Unknown")) /\
  (Str.includes raw " - " = true ->
     exists title source,
       extractSourceFromTitle raw = (title, source) /\
       raw = title ++ " - " ++ source /\
       Str.includes source " - " = false /\
       source = last (Str.split raw " - ") "" /\
       title = Str.join (removelast (Str.split raw " - ")) " - ") /\
  (Str.includes raw " - - " = false ->
     extractSourceFromTitle raw = split_at_last_separator raw).
Proof.
  split; [|split].
  - intros H. unfold extractSourceFromTitle. now rewrite H.
  - apply extractSourceFromTitle_cut.
  - intros NO. destruct (Str.includes raw " - ") eqn:H.
    + destruct (extractSourceFromTitle_cut raw H)
        as (title & source & E & R & Fs & _ & _).
      rewrite E. unfold split_at_last_separator.
      assert (Str.lastIndexOf raw " - " = Some (String.length title)) as L.
      { rewrite R. apply lastIndexOf_at; [exact (prefix_append " - " source)|].
        rewrite includes_cons, includes_cons, Fs, orb_false_r.
        change (prefix " - " (String "-" (String " " source))) with false.
        destruct (prefix " - " (String " " source)) eqn:P; [|reflexivity].
        apply prefix_inv in P. destruct P as [r P].
        injection P as P.
        assert (Str.includes raw " - - " = true) as G.
        { apply includes_iff. exists title, r. rewrite R, P. reflexivity. }
        congruence. }
      rewrite L, R at 1.
      rewrite take_length_append. f_equal.
      rewrite R at 1.
      replace (String.length title + 3) with (String.length (title ++ " - "))
        by (rewrite length_append; reflexivity).
      rewrite <- append_assoc. now rewrite drop_length_append.
    + unfold extractSourceFromTitle, split_at_last_separator.
      now rewrite H, (lastIndexOf_none _ _ H).
Qed.

End TitleSplitter.

(** ** Deduplicator *)

Section Dedup.

Lemma related_sym (s t : string) : related s t = related t s.
Proof. unfold related. apply orb_comm. Qed.

Lemma related_refl (s : string) : related s s = true.
Proof. unfold related. now rewrite includes_refl. Qed.

Lemma isDuplicate_true_iff (seen : list string) (t : string) :
  isDuplicate seen t = true <-> exists s, In s seen /\ related t s = true.
Proof. unfold isDuplicate. apply existsb_exists. Qed.

Lemma isDuplicate_false_iff (seen : list string) (t : string) :
  isDuplicate seen t = false <-> forall s, In s seen -> related t s = false.
Proof.
  split.
  - intros H s Hs. destruct (related t s) eqn:E; [|reflexivity].
    assert (isDuplicate seen t = true) by (apply isDuplicate_true_iff; eauto).
    congruence.
  - intros H. destruct (isDuplicate seen t) eqn:E; [|reflexivity].
    apply isDuplicate_true_iff in E. destruct E as (s & Hs & R).
    rewrite (H s Hs) in R. discriminate.
Qed.

Lemma mem_true_iff (t : string) (l : list string) : mem t l = true <-> In t l.
Proof.
  unfold mem. rewrite existsb_exists. split.
  - intros (s & Hs & E). apply String.eqb_eq in E. now subst.
  - intros H. exists t. split; [exact H | apply String.eqb_refl].
Qed.

(** A title that is no duplicate is new to the set, so [add] appends it. *)
Lemma set_add_fresh (seen : list string) (t : string) :
  isDuplicate seen t = false -> set_add t seen = (seen ++ [t])%list.
Proof.
  intros H. unfold set_add. destruct (mem t seen) eqn:E; [|reflexivity].
  apply mem_true_iff in E. rewrite isDuplicate_false_iff in H.
  specialize (H t E). rewrite related_refl in H. discriminate.
Qed.

Lemma dedup_run_snoc (l : list article) (a : article) :
  dedup_run (l ++ [a]) = dedup_step (dedup_run l) a.
Proof. unfold dedup_run. now rewrite fold_left_app. Qed.

Lemma dedup_run_app (l l' : list article) :
  dedup_run (l ++ l') = fold_left dedup_step l' (dedup_run l).
Proof. unfold dedup_run. now rewrite fold_left_app. Qed.

(** [seenTitles] holds the titleLower-case titles of [uniqueArticles], in order. *)
Lemma seen_fold (l : list article) (st : list string * list article) :
  fst st = map titleLower (snd st) ->
  fst (fold_left dedup_step l st) = map titleLower (snd (fold_left dedup_step l st)).
Proof.
  revert st. induction l as [|a l IH]; intros [seen uniq] H; [exact H|].
  cbn [fold_left]. apply IH. unfold dedup_step. simpl in H.
  destruct (isDuplicate seen (titleLower a)) eqn:E; [exact H|].
  cbn [fst snd]. rewrite (set_add_fresh _ _ E), map_app, H. reflexivity.
Qed.

Lemma seen_titles (l : list article) :
  fst (dedup_run l) = map titleLower (snd (dedup_run l)).
Proof. apply seen_fold. reflexivity. Qed.

(** The accepted articles only grow, at the end. *)
Lemma dedup_fold_extends (l : list article) (st : list string * list article) :
  exists rest, snd (fold_left dedup_step l st) = (snd st ++ rest)%list.
Proof.
  revert st. induction l as [|a l IH]; intros [seen uniq].
  - exists []. simpl. now rewrite app_nil_r.
  - cbn [fold_left]. unfold dedup_step at 2.
    destruct (isDuplicate seen (titleLower a)).
    + apply IH.
    + destruct (IH (set_add (titleLower a) seen, (uniq ++ [a])%list))
        as [rest E].
      exists (a :: rest). rewrite E. cbn [snd]. now rewrite <- app_assoc.
Qed.

Lemma deduplicate_extends (l l' : list article) :
  exists rest, deduplicate (l ++ l') = (deduplicate l ++ rest)%list.
Proof. unfold deduplicate. rewrite dedup_run_app. apply dedup_fold_extends. Qed.

(** The verdict on the candidate that comes after the candidates [l]. *)
Lemma deduplicate_snoc (l : list article) (a : article) :
  deduplicate (l ++ [a])
  = if isDuplicate (map titleLower (deduplicate l)) (titleLower a)
    then deduplicate l else (deduplicate l ++ [a])%list.
Proof.
  unfold deduplicate. rewrite dedup_run_snoc, <- seen_titles.
  destruct (dedup_run l) as [seen uniq]. unfold dedup_step. cbn [fst snd].
  now destruct (isDuplicate seen (titleLower a)).
Qed.

Lemma snoc_neq {A} (l : list A) (x : A) : (l ++ [x])%list <> l.
Proof.
  intros E. apply (f_equal (@List.length A)) in E.
  rewrite length_app in E. simpl in E. lia.
Qed.

(** The accepted titles are pairwise out of the substring relation. *)
Lemma deduplicate_unrelated (l : list article) :
  ForallOrdPairs (fun a b => related (titleLower b) (titleLower a) = false)
                 (deduplicate l).
Proof.
  induction l as [|a l IH] using rev_ind; [constructor|].
  rewrite deduplicate_snoc.
  destruct (isDuplicate (map titleLower (deduplicate l)) (titleLower a)) eqn:E;
    [exact IH|].
  rewrite isDuplicate_false_iff in E.
  induction IH as [|b u Hb Hu IHu]; simpl.
  - repeat constructor.
  - constructor.
    + apply Forall_app. split; [exact Hb|].
      constructor; [|constructor]. apply E. now left.
    + apply IHu. intros t Ht. apply E. now right.
Qed.

(** C2: the candidate [a] that comes after the candidates [l] is accepted if
    and only if its lower-case title neither contains the lower-case title of
    an article accepted before it nor is contained in one, and it is put
    after them; otherwise the accepted articles stay as they are.  Of an
    accepted title and a later candidate in the substring relation with it,
    exactly the first one is retained: what was accepted is never removed
    (the output for any longer input starts with it), and the later candidate
    is rejected; two such titles on their own collapse to the first. *)
Theorem deduplicate_first_seen_wins (l : list article) (a : article) :
  let accepted := deduplicate l in
  ((forall b, In b accepted ->
      Str.includes (titleLower a) (titleLower b) = false /\
      Str.includes (titleLower b) (titleLower a) = false)
   <-> deduplicate (l ++ [a]) = (accepted ++ [a])%list) /\
  ((exists b, In b accepted /\
      (Str.includes (titleLower a) (titleLower b) = true \/
       Str.includes (titleLower b) (titleLower a) = true))
   <-> deduplicate (l ++ [a]) = accepted) /\
  (forall l', exists rest, deduplicate (l ++ l') = (accepted ++ rest)%list) /\
  (forall b l', In b (deduplicate (l ++ l')) ->
      related (titleLower a) (titleLower b) = true ->
      deduplicate ((l ++ l') ++ [a]) = deduplicate (l ++ l')) /\
  (forall b, related (titleLower a) (titleLower b) = true ->
      deduplicate [b; a] = [b]).
Proof.
  intros accepted.
  assert (forall l0 b, In b (deduplicate l0) ->
            related (titleLower a) (titleLower b) = true ->
            deduplicate (l0 ++ [a]) = deduplicate l0) as Rej.
  { intros l0 b Hb R. rewrite deduplicate_snoc.
    destruct (isDuplicate (map titleLower (deduplicate l0)) (titleLower a)) eqn:E;
      [reflexivity|].
    rewrite isDuplicate_false_iff in E.
    rewrite (E (titleLower b)) in R by now apply in_map. discriminate. }
  repeat split.
  - intros H. rewrite deduplicate_snoc.
    replace (isDuplicate (map titleLower (deduplicate l)) (titleLower a)) with false;
      [reflexivity|].
    symmetry. apply isDuplicate_false_iff. intros s Hs.
    apply in_map_iff in Hs. destruct Hs as (b & <- & Hb).
    destruct (H b Hb) as [H1 H2]. unfold related. now rewrite H1, H2.
  - rewrite deduplicate_snoc in H.
    destruct (isDuplicate (map titleLower (deduplicate l)) (titleLower a)) eqn:E.
    + symmetry in H. now apply snoc_neq in H.
    + rewrite isDuplicate_false_iff in E.
      assert (related (titleLower a) (titleLower b) = false) as R
        by (apply E; now apply in_map).
      unfold related in R. now apply orb_false_iff in R.
  - rewrite deduplicate_snoc in H.
    destruct (isDuplicate (map titleLower (deduplicate l)) (titleLower a)) eqn:E.
    + symmetry in H. now apply snoc_neq in H.
    + rewrite isDuplicate_false_iff in E.
      assert (related (titleLower a) (titleLower b) = false) as R
        by (apply E; now apply in_map).
      unfold related in R. now apply orb_false_iff in R.
  - intros (b & Hb & R). apply (Rej l b Hb).
    unfold related. apply orb_true_iff. exact R.
  - intros H. rewrite deduplicate_snoc in H.
    destruct (isDuplicate (map titleLower (deduplicate l)) (titleLower a)) eqn:E.
    + apply isDuplicate_true_iff in E. destruct E as (s & Hs & R).
      apply in_map_iff in Hs. destruct Hs as (b & <- & Hb).
      exists b. split; [exact Hb|]. now apply orb_true_iff.
    + now apply snoc_neq in H.
  - apply deduplicate_extends.
  - intros b l' Hb R. now apply (Rej (l ++ l')%list b).
  - intros b R. apply (Rej [b] b); [now left | exact R].
Qed.

(** C9: once a candidate with an empty lower-case title has been accepted,
    every later candidate is classified as a duplicate, so the accepted
    articles stay what they were when it came in. *)
Theorem empty_title_blocks_the_rest
  (l : list article) (a : article) (l' : list article) :
  titleLower a = "" ->
  deduplicate (l ++ [a]) = (deduplicate l ++ [a])%list ->
  (forall l1 c l2, l' = (l1 ++ c :: l2)%list ->
     isDuplicate (fst (dedup_run ((l ++ [a]) ++ l1))) (titleLower c) = true) /\
  deduplicate ((l ++ [a]) ++ l') = deduplicate (l ++ [a]).
Proof.
  intros Ha Hacc.
  assert (forall l1, In (titleLower a) (fst (dedup_run ((l ++ [a]) ++ l1)))) as Seen.
  { intros l1. rewrite seen_titles. apply in_map.
    destruct (deduplicate_extends (l ++ [a]) l1) as [rest E].
    unfold deduplicate in E, Hacc. rewrite E, Hacc.
    apply in_or_app. left. apply in_or_app. right. now left. }
  assert (forall l1 c,
            isDuplicate (fst (dedup_run ((l ++ [a]) ++ l1))) (titleLower c) = true)
    as Dup.
  { intros l1 c. apply isDuplicate_true_iff. exists (titleLower a).
    split; [apply Seen|]. unfold related. rewrite Ha.
    now rewrite includes_empty. }
  split.
  - intros l1 c l2 _. apply Dup.
  - induction l' as [|c l1 IH] using rev_ind.
    + now rewrite app_nil_r.
    + rewrite app_assoc, deduplicate_snoc.
      unfold deduplicate at 1. rewrite <- seen_titles, Dup. exact IH.
Qed.

End Dedup.

(** ** Sorting *)

Lemma insert_by_perm {A} (cmp : A -> A -> Z) (x : A) (l : list A) :
  Permutation (insert_by cmp x l) (x :: l).
Proof.
  induction l as [|y l IH]; simpl; [reflexivity|].
  destruct (0 <? cmp x y)%Z; [|reflexivity].
  rewrite IH. apply perm_swap.
Qed.

Lemma sort_by_perm {A} (cmp : A -> A -> Z) (l : list A) :
  Permutation (sort_by cmp l) l.
Proof.
  induction l as [|x l IH]; simpl; [reflexivity|].
  rewrite insert_by_perm. now constructor.
Qed.

Section SortDescending.

Context {A : Type}.
Variable key : A -> Z.

Let cmp (x y : A) : Z := (key y - key x)%Z.
Let ge (x y : A) : Prop := (key y <= key x)%Z.
Let has (k : Z) (x : A) : bool := (key x =? k)%Z.

Lemma insert_by_sorted (x : A) (l : list A) :
  StronglySorted ge l -> StronglySorted ge (insert_by cmp x l).
Proof.
  induction 1 as [|y l Hs IH Hy]; simpl; [repeat constructor|].
  destruct (0 <? cmp x y)%Z eqn:E.
  - constructor; [exact IH|].
    rewrite (insert_by_perm cmp x l). constructor; [|exact Hy].
    unfold ge, cmp in *. lia.
  - constructor; [now constructor|].
    constructor; [unfold ge, cmp in *; lia|].
    eapply Forall_impl; [|exact Hy]. unfold ge, cmp in *. intros z Hz. lia.
Qed.

Lemma sort_by_sorted (l : list A) : StronglySorted ge (sort_by cmp l).
Proof.
  induction l as [|x l IH]; simpl; [constructor|].
  now apply insert_by_sorted.
Qed.

(** Insertion only passes elements with a strictly greater key. *)
Lemma insert_by_filter (k : Z) (x : A) (l : list A) :
  filter (has k) (insert_by cmp x l) = filter (has k) (x :: l).
Proof.
  induction l as [|y l IH]; [reflexivity|].
  cbn [insert_by]. destruct (0 <? cmp x y)%Z eqn:E; [|reflexivity].
  cbn [filter] in *. rewrite IH. unfold has, cmp in *.
  destruct (key x =? k)%Z eqn:Ex, (key y =? k)%Z eqn:Ey; try reflexivity.
  lia.
Qed.

(** Stability: the elements of one key keep their order. *)
Lemma sort_by_stable (k : Z) (l : list A) :
  filter (has k) (sort_by cmp l) = filter (has k) l.
Proof.
  induction l as [|x l IH]; [reflexivity|].
  cbn [sort_by]. rewrite insert_by_filter. cbn [filter]. now rewrite IH.
Qed.

(** In a list sorted this way a strictly greater key stands at a smaller
    index. *)
Lemma sorted_nth_order (l : list A) :
  StronglySorted ge l ->
  forall i j x y, nth_error l i = Some x -> nth_error l j = Some y ->
                  (key y < key x)%Z -> (i < j)%nat.
Proof.
  induction 1 as [|z l Hs IH Hz]; intros i j x y Hi Hj Hlt.
  - destruct i; discriminate.
  - rewrite Forall_forall in Hz.
    destruct i as [|i], j as [|j]; simpl in Hi, Hj.
    + injection Hi as ->. injection Hj as ->. lia.
    + lia.
    + injection Hj as ->. apply nth_error_In in Hi.
      specialize (Hz x Hi). unfold ge in Hz. lia.
    + apply -> Nat.succ_lt_mono. eapply IH; eauto.
Qed.

End SortDescending.

Lemma insert_by_ext {A} (c1 c2 : A -> A -> Z) (x : A) (l : list A) :
  (forall y, In y l -> (0 <? c1 x y)%Z = (0 <? c2 x y)%Z) ->
  insert_by c1 x l = insert_by c2 x l.
Proof.
  induction l as [|y l IH]; intros H; [reflexivity|].
  cbn [insert_by]. rewrite (H y) by now left.
  rewrite IH; [reflexivity|]. intros z Hz. apply H. now right.
Qed.

(** [sort] only looks at whether the comparator is positive, on the elements
    of the array. *)
Lemma sort_by_ext {A} (c1 c2 : A -> A -> Z) (l : list A) :
  (forall x y, In x l -> In y l -> (0 <? c1 x y)%Z = (0 <? c2 x y)%Z) ->
  sort_by c1 l = sort_by c2 l.
Proof.
  induction l as [|x l IH]; intros H; [reflexivity|].
  cbn [sort_by]. rewrite IH by (intros; apply H; now right).
  apply insert_by_ext. intros y Hy. apply H; [now left|].
  right. eapply Permutation_in; [apply sort_by_perm | exact Hy].
Qed.

(** ** Feed fetcher and aggregator *)

Section Fetch.

Variable tokenize : string -> list string.
Variable remove : option (list string -> list string).
Variable stem : string -> string.
Variable Date_parse : string -> option Z.
Variable clock : nat -> Z.
Variable network : nat -> string -> feed_result.

#[local] Abbreviation process :=
  (process_entry tokenize remove stem Date_parse clock).
#[local] Abbreviation step :=
  (entry_step tokenize remove stem Date_parse clock).
#[local] Abbreviation feed :=
  (feed_step tokenize remove stem Date_parse clock network).
#[local] Abbreviation gather :=
  (collect tokenize remove stem Date_parse clock network).
#[local] Abbreviation fetch :=
  (fetchGoogleNews tokenize remove stem Date_parse clock network).

Lemma new_Date_run (w : world) :
  new_Date clock w = (Ok (clock (ticks w)), tick w).
Proof. reflexivity. Qed.

(** The date an entry is given: parsed from its date string when it has one,
    read from the clock otherwise. *)
Lemma resolve_date_run (e : entry) (w : world) :
  resolve_date Date_parse clock e w
  = match js_or (e_pubDate e) (e_isoDate e) with
    | Some (String c s) => (Ok (Date_parse (String c s)), w)
    | _ => (Ok (Some (clock (ticks w))), tick w)
    end.
Proof.
  unfold resolve_date. destruct (js_or (e_pubDate e) (e_isoDate e)) as [[|c s]|];
    reflexivity.
Qed.

(** The body of the entry loop, by the date the entry was given. *)
Lemma process_entry_run (searchTerm : string) (oneWeekAgo : Z) (e : entry)
  (w : world) :
  exists (d : option Z) (w1 : world),
    resolve_date Date_parse clock e w = (Ok d, w1) /\
    process searchTerm oneWeekAgo e w
    = match d with
      | None => (Throw "Invalid time value", w1)
      | Some t =>
          if (t <? oneWeekAgo)%Z then (Ok None, w1)
          else
            match make_article tokenize remove stem searchTerm
                    (fst (extractSourceFromTitle (or_empty (e_title e))))
                    (snd (extractSourceFromTitle (or_empty (e_title e))))
                    e t (clock (ticks w1)) with
            | Ok a => (Ok (Some a), tick w1)
            | Throw message => (Throw message, tick w1)
            end
      end.
Proof.
  unfold process_entry.
  destruct (extractSourceFromTitle (or_empty (e_title e))) as [cleanTitle src].
  unfold bind at 1.
  destruct (resolve_date Date_parse clock e w) as [[d|m] w1] eqn:R.
  - exists d, w1. split; [reflexivity|].
    destruct d as [t|]; cbn [date_lt]; [|reflexivity].
    destruct (t <? oneWeekAgo)%Z; [reflexivity|].
    unfold bind. rewrite new_Date_run. cbn [fst snd].
    now destruct (make_article tokenize remove stem searchTerm cleanTitle src
                    e t (clock (ticks w1))).
  - rewrite resolve_date_run in R.
    destruct (js_or (e_pubDate e) (e_isoDate e)) as [[|c s]|]; discriminate.
Qed.

(** A loop whose body never throws and keeps an invariant of the accumulator
    runs to its end and keeps the invariant. *)
Lemma for_each_invariant {X S} (I : S -> Prop) (body : S -> X -> M S)
  (xs : list X) :
  (forall acc x w, I acc -> exists acc' w', body acc x w = (Ok acc', w') /\ I acc') ->
  forall acc w, I acc ->
    exists acc' w', for_each xs body acc w = (Ok acc', w') /\ I acc'.
Proof.
  intros Hb. induction xs as [|x xs IH]; intros acc w Hacc.
  - exists acc, w. split; [reflexivity | exact Hacc].
  - cbn [for_each]. unfold bind.
    destruct (Hb acc x w Hacc) as (acc1 & w1 & E & H1). rewrite E.
    apply IH. exact H1.
Qed.

(** An entry adds at most one article to the end of the array, and never
    makes the loop fail. *)
Lemma entry_step_run (searchTerm : string) (oneWeekAgo : Z)
  (articles : list article) (e : entry) (w : world) :
  exists w',
    step searchTerm oneWeekAgo articles e w = (Ok articles, w') \/
    exists a, step searchTerm oneWeekAgo articles e w = (Ok (articles ++ [a])%list, w')
              /\ (oneWeekAgo <= date_obj a)%Z /\ search_term a = searchTerm.
Proof.
  destruct (process_entry_run searchTerm oneWeekAgo e w) as (d & w1 & _ & P).
  unfold entry_step, try_catch, bind. rewrite P.
  destruct d as [t|].
  - destruct (t <? oneWeekAgo)%Z eqn:E.
    + exists w1. now left.
    + exists (tick w1). unfold make_article.
      destruct (extractKeywords tokenize remove stem _ 5) as [kw|m].
      * right. eexists. split; [reflexivity|].
        cbn [date_obj search_term pushed_article]. split; [lia | reflexivity].
      * now left.
  - exists w1. now left.
Qed.

Section Window.

Variable oneWeekAgo : Z.

#[local] Abbreviation in_window := (in_window oneWeekAgo).

Lemma entry_step_window (searchTerm : string) (articles : list article)
  (e : entry) (w : world) :
  in_window articles ->
  exists articles' w',
    step searchTerm oneWeekAgo articles e w = (Ok articles', w') /\
    in_window articles'.
Proof.
  intros H. destruct (entry_step_run searchTerm oneWeekAgo articles e w)
    as (w' & [E|(a & E & Ha & _)]).
  - now exists articles, w'.
  - exists (articles ++ [a])%list, w'. split; [exact E|].
    apply Forall_app. split; [exact H | now constructor].
Qed.

Lemma feed_step_window (articles : list article) (f : string * string)
  (w : world) :
  in_window articles ->
  exists articles' w',
    feed oneWeekAgo articles f w = (Ok articles', w') /\ in_window articles'.
Proof.
  intros H. destruct f as [searchTerm url].
  unfold feed_step, try_catch, bind at 1, parseURL.
  destruct (network (ticks w) url) as [m|[items|]].
  - now exists articles, w.
  - destruct items as [|e items]; [now exists articles, w|].
    destruct (for_each_invariant in_window (step searchTerm oneWeekAgo)
                (e :: items) (entry_step_window searchTerm) articles w H)
      as (articles' & w' & E & H').
    unfold bind. rewrite E. now exists articles', w'.
  - now exists articles, w.
Qed.

End Window.

Lemma collect_window (w : world) :
  exists articles w',
    gather w = (Ok articles, w') /\
    in_window (JsDate.addDays (clock (ticks w)) (-7)) articles.
Proof.
  unfold collect, bind at 1. rewrite new_Date_run.
  apply for_each_invariant.
  - intros acc f w1. apply feed_step_window.
  - constructor.
Qed.

Lemma fetchGoogleNews_run (w : world) :
  exists articles w',
    gather w = (Ok articles, w') /\
    fetch w = (Ok (sortArticles (deduplicate articles)), w').
Proof.
  destruct (collect_window w) as (articles & w' & E & _).
  exists articles, w'. split; [exact E|].
  unfold fetchGoogleNews, bind. now rewrite E.
Qed.

Lemma deduplicate_incl (l : list article) (a : article) :
  In a (deduplicate l) -> In a l.
Proof.
  induction l as [|b l IH] using rev_ind; [intros []|].
  rewrite deduplicate_snoc.
  destruct (isDuplicate (map titleLower (deduplicate l)) (titleLower b)).
  - intros H. apply in_or_app. left. now apply IH.
  - intros H. apply in_app_or in H. apply in_or_app.
    destruct H as [H|H]; [left; now apply IH | now right].
Qed.

Lemma sortArticles_in (l : list article) (a : article) :
  In a (sortArticles l) <-> In a l.
Proof.
  unfold sortArticles. split; apply Permutation_in;
    [|symmetry]; apply sort_by_perm.
Qed.

(** Whatever the [stopword] package exports, a refresh never fails, and every
    article it gathers, hence every article of its result, is dated at or
    after [now - 7 days], [now] being the clock read at the start of the
    refresh: an entry dated before that is left out before the
    de-duplication and the sort.  This is all that the recency test
    enforces. *)
Lemma fetchGoogleNews_lower_bound (w : world) :
  let oneWeekAgo := (clock (ticks w) - 7 * JsDate.msPerDay)%Z in
  exists collected w',
    gather w = (Ok collected, w') /\
    fetch w = (Ok (sortArticles (deduplicate collected)), w') /\
    Forall (fun a => (oneWeekAgo <= date_obj a)%Z) collected /\
    Forall (fun a => (oneWeekAgo <= date_obj a)%Z)
           (sortArticles (deduplicate collected)).
Proof.
  intros oneWeekAgo.
  destruct (collect_window w) as (collected & w' & E & H).
  exists collected, w'. split; [exact E|].
  split; [unfold fetchGoogleNews, bind; now rewrite E|].
  assert (JsDate.addDays (clock (ticks w)) (-7) = oneWeekAgo) as EQ
    by (unfold JsDate.addDays, oneWeekAgo; lia).
  rewrite EQ in H. split; [exact H|].
  unfold in_window in H. rewrite Forall_forall in *.
  intros a Ha. apply H. apply deduplicate_incl. now apply sortArticles_in.
Qed.

(** C3: the result of a refresh is the de-duplicated sequence reordered; an
    article with a later date stands before every article with an earlier
    one, and the articles of one date keep the order they had in the
    de-duplicated sequence. *)
Theorem fetchGoogleNews_sorted (w : world) :
  exists collected sorted w',
    gather w = (Ok collected, w') /\
    fetch w = (Ok sorted, w') /\
    Permutation sorted (deduplicate collected) /\
    (forall i j a b,
        nth_error sorted i = Some a -> nth_error sorted j = Some b ->
        (date_obj b < date_obj a)%Z -> (i < j)%nat) /\
    (forall t,
        filter (fun a => (date_obj a =? t)%Z) sorted
        = filter (fun a => (date_obj a =? t)%Z) (deduplicate collected)).
Proof.
  destruct (fetchGoogleNews_run w) as (collected & w' & E & F).
  exists collected, (sortArticles (deduplicate collected)), w'.
  split; [exact E|]. split; [exact F|]. unfold sortArticles.
  split; [apply sort_by_perm|]. split.
  - apply (sorted_nth_order date_obj). apply sort_by_sorted.
  - intros t. apply (sort_by_stable date_obj).
Qed.

(** C7, what the code does: an entry whose date string the host cannot parse
    gets an Invalid Date from [parseDate] (whose [catch] never runs); the
    recency test lets it through, [toISOString()] throws, and the [catch] of
    the entry loop skips the entry: no article is added. *)
Theorem unparseable_date_is_dropped (searchTerm : string) (oneWeekAgo : Z)
  (articles : list article) (e : entry) (c : ascii) (s : string) (w : world) :
  js_or (e_pubDate e) (e_isoDate e) = Some (String c s) ->
  Date_parse (String c s) = None ->
  parseDate Date_parse clock (String c s) w = (Ok None, w) /\
  process searchTerm oneWeekAgo e w = (Throw "Invalid time value", w) /\
  step searchTerm oneWeekAgo articles e w = (Ok articles, w).
Proof.
  intros Hs Hp.
  assert (process searchTerm oneWeekAgo e w = (Throw "Invalid time value", w)) as P.
  { destruct (process_entry_run searchTerm oneWeekAgo e w) as (d & w1 & R & P).
    rewrite resolve_date_run, Hs, Hp in R. injection R as <- <-. exact P. }
  split; [|split].
  - unfold parseDate, try_catch, ret. now rewrite Hp.
  - exact P.
  - unfold entry_step, try_catch, bind. now rewrite P.
Qed.

End Fetch.

(** ** Text normalizer *)

Section KeywordFacts.

Variable tokenize : string -> list string.
Variable stem : string -> string.

Lemma mem_false_iff (t : string) (l : list string) : mem t l = false <-> ~ In t l.
Proof.
  rewrite <- mem_true_iff. destruct (mem t l); split; congruence.
Qed.

Lemma entries_perm (o : obj) : Permutation (Obj.entries o) o.
Proof.
  unfold Obj.entries. rewrite sort_by_perm.
  induction o as [|p o IH]; [reflexivity|]. cbn [filter].
  destruct (Obj.is_index p); cbn [negb app].
  - now constructor.
  - rewrite <- Permutation_middle. now constructor.
Qed.

(** On a text that is not empty [extractKeywords] throws exactly when the
    name [removeStopwords] is bound to [undefined]. *)
Lemma extractKeywords_throws_iff (remove : option (list string -> list string))
  (c : ascii) (text : string) (topN : Z) :
  (exists message,
      extractKeywords tokenize remove stem (Some (String c text)) topN
      = Throw message)
  <-> remove = None.
Proof.
  cbn [extractKeywords]. unfold removeStopwords. destruct remove as [f|].
  - split; [intros [m H]; discriminate H | discriminate].
  - split; [reflexivity | intros _; now eexists].
Qed.

(** C4, what the code does: the name [removeStopwords] is bound to the export
    [remove] of the [stopword] package, which has none, so the call at line
    73 calls [undefined].  On every text that is not empty, whatever [topN],
    the tokenizer and the stemmer, [extractKeywords] throws a [TypeError]
    where the claim asks for at most [topN] ranked pairs; the filter, the
    stemming, the count, the sort and the cut that follow the call are never
    reached.  Only the absent and the empty text get the empty array. *)
Theorem extractKeywords_throws (c : ascii) (text : string) (topN : Z) :
  extractKeywords tokenize stopword_remove stem (Some (String c text)) topN
  = Throw "removeStopwords is not a function" /\
  extractKeywords tokenize stopword_remove stem None topN = Ok [] /\
  extractKeywords tokenize stopword_remove stem (Some "") topN = Ok [].
Proof. repeat split. Qed.

End KeywordFacts.

(** ** Dates: [toISOString] tells valid dates apart *)

Section IsoDates.

#[local] Open Scope Z_scope.

Lemma append_inj (a b a' b' : string) :
  String.length a = String.length a' ->
  (a ++ b = a' ++ b')%string -> a = a' /\ b = b'.
Proof.
  revert a'. induction a as [|c a IH]; intros [|c' a'] L E; try discriminate.
  - now split.
  - simpl in L, E. injection L as L. injection E as -> E.
    destruct (IH a' L E) as [-> ->]. now split.
Qed.

(** The fields of a day of an era are in range, and lead back to the day. *)
Lemma era_day_ok (doe : Z) :
  0 <= doe < 146097 ->
  exists yoe m d,
    JsDate.civil_of_era_day doe = (yoe, m, d) /\
    0 <= yoe <= 399 /\ 1 <= m <= 12 /\ 1 <= d <= 31 /\
    JsDate.era_day_of_civil yoe m d = doe.
Proof.
  intros H. unfold JsDate.civil_of_era_day, JsDate.era_day_of_civil.
  set (yoe := (doe - doe / 1460 + doe / 36524 - doe / 146096) / 365).
  set (doy := doe - (365 * yoe + yoe / 4 - yoe / 100)).
  set (mp := (5 * doy + 2) / 153).
  set (d := doy - (153 * mp + 2) / 5 + 1).
  assert (0 <= yoe <= 399 /\ 0 <= doy <= 365) as [Hy Hd]
    by (subst doy yoe; Z.div_mod_to_equations; lia).
  assert (0 <= mp <= 11 /\ 1 <= d <= 31) as [Hm Hdd]
    by (subst d mp; Z.div_mod_to_equations; lia).
  exists yoe, (if mp <? 10 then mp + 3 else mp - 9), d.
  split; [reflexivity|]. split; [exact Hy|].
  destruct (Z.ltb_spec mp 10).
  - replace (2 <? mp + 3) with true by (symmetry; apply Z.ltb_lt; lia).
    replace (mp + 3 - 3) with mp by lia. subst d doy. lia.
  - replace (2 <? mp - 9) with false by (symmetry; apply Z.ltb_ge; lia).
    replace (mp - 9 + 9) with mp by lia. subst d doy. lia.
Qed.

(** The fields of the calendar date are in range. *)
Lemma civil_from_days_range (z : Z) :
  let '(y, m, d) := JsDate.civil_from_days z in
  1 <= m <= 12 /\ 1 <= d <= 31 /\
  400 * ((z + 719468) / 146097) <= y <= 400 * ((z + 719468) / 146097) + 400.
Proof.
  unfold JsDate.civil_from_days.
  destruct (era_day_ok ((z + 719468) mod 146097)) as (yoe & m & d & E & Hy & Hm & Hd & _).
  { apply Z.mod_pos_bound. lia. }
  rewrite E. destruct (m <=? 2); lia.
Qed.

(** Two day numbers with the same calendar date are equal. *)
Lemma civil_from_days_inj (z1 z2 : Z) :
  JsDate.civil_from_days z1 = JsDate.civil_from_days z2 -> z1 = z2.
Proof.
  unfold JsDate.civil_from_days.
  destruct (era_day_ok ((z1 + 719468) mod 146097))
    as (y1 & m1 & d1 & E1 & Hy1 & _ & _ & I1); [apply Z.mod_pos_bound; lia|].
  destruct (era_day_ok ((z2 + 719468) mod 146097))
    as (y2 & m2 & d2 & E2 & Hy2 & _ & _ & I2); [apply Z.mod_pos_bound; lia|].
  rewrite E1, E2. intros H. injection H as Hy -> ->.
  assert (y1 = y2 /\ (z1 + 719468) / 146097 = (z2 + 719468) / 146097) as [-> Q].
  { destruct (m2 <=? 2); lia. }
  assert ((z1 + 719468) mod 146097 = (z2 + 719468) mod 146097) as R by congruence.
  pose proof (Z.div_mod (z1 + 719468) 146097 ltac:(lia)).
  pose proof (Z.div_mod (z2 + 719468) 146097 ltac:(lia)).
  lia.
Qed.

Lemma digit_inj (a b : Z) :
  0 <= a < 10 -> 0 <= b < 10 -> JsDate.digit a = JsDate.digit b -> a = b.
Proof.
  intros Ha Hb E. unfold JsDate.digit in E.
  apply (f_equal nat_of_ascii) in E.
  rewrite !nat_ascii_embedding in E by lia. lia.
Qed.

Lemma pad_length (w : nat) (n : Z) : String.length (JsDate.pad w n) = w.
Proof.
  revert n. induction w as [|w IH]; intros n; [reflexivity|].
  cbn [JsDate.pad]. rewrite length_append, IH. simpl. lia.
Qed.

Lemma pad_inj (w : nat) (a b : Z) :
  0 <= a < 10 ^ Z.of_nat w -> 0 <= b < 10 ^ Z.of_nat w ->
  JsDate.pad w a = JsDate.pad w b -> a = b.
Proof.
  revert a b. induction w as [|w IH]; intros a b Ha Hb E.
  - simpl in Ha, Hb. lia.
  - cbn [JsDate.pad] in E.
    apply append_inj in E; [|now rewrite !pad_length].
    destruct E as [E1 E2]. injection E2 as E2.
    rewrite Nat2Z.inj_succ, Z.pow_succ_r in Ha, Hb by lia.
    apply digit_inj in E2; try (apply Z.mod_pos_bound; lia).
    apply IH in E1.
    + pose proof (Z.div_mod a 10 ltac:(lia)).
      pose proof (Z.div_mod b 10 ltac:(lia)). lia.
    + split; [apply Z.div_pos; lia | apply Z.div_lt_upper_bound; lia].
    + split; [apply Z.div_pos; lia | apply Z.div_lt_upper_bound; lia].
Qed.

Lemma year_string_length (y : Z) :
  String.length (JsDate.year_string y)
  = if (0 <=? y) && (y <=? 9999) then 4%nat else 7%nat.
Proof.
  unfold JsDate.year_string. destruct ((0 <=? y) && (y <=? 9999)).
  - apply pad_length.
  - rewrite length_append, pad_length. now destruct (y <? 0).
Qed.

Lemma year_string_inj (y1 y2 : Z) :
  Z.abs y1 < 1000000 -> Z.abs y2 < 1000000 ->
  JsDate.year_string y1 = JsDate.year_string y2 -> y1 = y2.
Proof.
  intros H1 H2 E.
  pose proof (f_equal String.length E) as L.
  rewrite !year_string_length in L.
  unfold JsDate.year_string in E.
  destruct ((0 <=? y1) && (y1 <=? 9999)) eqn:R1,
           ((0 <=? y2) && (y2 <=? 9999)) eqn:R2; try discriminate L.
  - apply andb_true_iff in R1, R2. apply (pad_inj 4) in E; simpl; lia.
  - apply andb_false_iff in R1, R2.
    destruct (y1 <? 0) eqn:S1, (y2 <? 0) eqn:S2; try discriminate E;
      apply append_inv_head in E; apply (pad_inj 6) in E; simpl; lia.
Qed.

Lemma civil_year_bound (t : Z) :
  JsDate.valid_time t ->
  let '(y, _, _) := JsDate.civil_from_days (t / JsDate.msPerDay) in
  Z.abs y < 1000000.
Proof.
  intros V. unfold JsDate.valid_time in V.
  pose proof (civil_from_days_range (t / JsDate.msPerDay)) as R.
  destruct (JsDate.civil_from_days (t / JsDate.msPerDay)) as [[y m] d].
  destruct R as (_ & _ & R). unfold JsDate.msPerDay in R.
  change (1000 * 60 * 60 * 24) with 86400000 in R.
  Z.div_mod_to_equations. lia.
Qed.

Lemma isoDay_length (t : Z) :
  String.length (JsDate.isoDay t)
  = (String.length
       (JsDate.year_string (fst (fst (JsDate.civil_from_days (t / JsDate.msPerDay)))))
     + 6)%nat.
Proof.
  unfold JsDate.isoDay.
  destruct (JsDate.civil_from_days (t / JsDate.msPerDay)) as [[y m] d].
  cbn [fst]. rewrite !length_append, !pad_length. simpl. lia.
Qed.

(** The date part of the ISO string fixes the day. *)
Lemma isoDay_inj (a b : Z) :
  JsDate.valid_time a -> JsDate.valid_time b ->
  JsDate.isoDay a = JsDate.isoDay b ->
  a / JsDate.msPerDay = b / JsDate.msPerDay.
Proof.
  intros Va Vb E. apply civil_from_days_inj.
  pose proof (f_equal String.length E) as L. rewrite !isoDay_length in L.
  pose proof (civil_year_bound a Va) as Ba.
  pose proof (civil_year_bound b Vb) as Bb.
  pose proof (civil_from_days_range (a / JsDate.msPerDay)) as Ra.
  pose proof (civil_from_days_range (b / JsDate.msPerDay)) as Rb.
  unfold JsDate.isoDay in E.
  destruct (JsDate.civil_from_days (a / JsDate.msPerDay)) as [[y1 m1] d1].
  destruct (JsDate.civil_from_days (b / JsDate.msPerDay)) as [[y2 m2] d2].
  cbn [fst] in L.
  apply append_inj in E; [|lia]. destruct E as [Ey E].
  apply (append_inv_head "-") in E.
  apply append_inj in E; [|now rewrite !pad_length]. destruct E as [Em E].
  apply (append_inv_head "-") in E. rename E into Ed.
  apply year_string_inj in Ey; [|assumption|assumption].
  apply (pad_inj 2) in Em; [|simpl; lia|simpl; lia].
  apply (pad_inj 2) in Ed; [|simpl; lia|simpl; lia].
  congruence.
Qed.

Lemma isoClock_length (t : Z) : String.length (JsDate.isoClock t) = 8%nat.
Proof.
  unfold JsDate.isoClock. rewrite !length_append, !pad_length. reflexivity.
Qed.

(** The clock part and the milliseconds fix the time of the day. *)
Lemma isoClock_inj (a b : Z) :
  JsDate.isoClock a = JsDate.isoClock b ->
  JsDate.pad 3 (a mod 1000) = JsDate.pad 3 (b mod 1000) ->
  a mod JsDate.msPerDay = b mod JsDate.msPerDay.
Proof.
  unfold JsDate.isoClock, JsDate.msPerDay.
  change (1000 * 60 * 60 * 24) with 86400000.
  intros E M.
  apply append_inj in E; [|now rewrite !pad_length]. destruct E as [Eh E].
  apply (append_inv_head ":") in E.
  apply append_inj in E; [|now rewrite !pad_length]. destruct E as [Em E].
  apply (append_inv_head ":") in E. rename E into Es.
  pose proof (Z.mod_pos_bound a 86400000 ltac:(lia)) as Pa.
  pose proof (Z.mod_pos_bound b 86400000 ltac:(lia)) as Pb.
  apply (pad_inj 2) in Eh;
    [|simpl; Z.div_mod_to_equations; lia|simpl; Z.div_mod_to_equations; lia].
  apply (pad_inj 2) in Em;
    [|simpl; Z.div_mod_to_equations; lia|simpl; Z.div_mod_to_equations; lia].
  apply (pad_inj 2) in Es;
    [|simpl; Z.div_mod_to_equations; lia|simpl; Z.div_mod_to_equations; lia].
  apply (pad_inj 3) in M;
    [|simpl; Z.div_mod_to_equations; lia|simpl; Z.div_mod_to_equations; lia].
  Z.div_mod_to_equations. lia.
Qed.

(** [toISOString] is one to one on the valid dates. *)
Lemma toISOString_inj (a b : Z) :
  JsDate.valid_time a -> JsDate.valid_time b ->
  JsDate.toISOString a = JsDate.toISOString b -> a = b.
Proof.
  intros Va Vb E. unfold JsDate.toISOString in E.
  pose proof (f_equal String.length E) as L.
  rewrite !length_append, !isoClock_length, !pad_length in L.
  apply append_inj in E; [|simpl in L; lia]. destruct E as [Ed E].
  apply (append_inv_head "T") in E.
  apply append_inj in E; [|now rewrite !isoClock_length]. destruct E as [Ec E].
  apply (append_inv_head ".") in E.
  apply append_inj in E; [|now rewrite !pad_length]. destruct E as [Em _].
  pose proof (isoDay_inj a b Va Vb Ed) as D.
  pose proof (isoClock_inj a b Ec Em) as C.
  unfold JsDate.msPerDay in D, C.
  change (1000 * 60 * 60 * 24) with 86400000 in D, C.
  pose proof (Z.div_mod a 86400000 ltac:(lia)).
  pose proof (Z.div_mod b 86400000 ltac:(lia)).
  lia.
Qed.

End IsoDates.

(** ** Cache and HTTP surface *)

Section Frames.

Variable clock : nat -> Z.

Lemma frames_ret {A} (a : A) : frames (ret a).
Proof. intros w r w' E. injection E as _ <-. split; [reflexivity | lia]. Qed.

Lemma frames_throw {A} (message : string) : frames (@throw A message).
Proof. intros w r w' E. injection E as _ <-. split; [reflexivity | lia]. Qed.

Lemma frames_new_Date : frames (new_Date clock).
Proof.
  intros w r w' E. injection E as _ <-. split; [reflexivity | simpl; lia].
Qed.

Lemma frames_bind {A B} (m : M A) (k : A -> M B) :
  frames m -> (forall a, frames (k a)) -> frames (bind m k).
Proof.
  intros Hm Hk w r w' E. unfold bind in E.
  destruct (m w) as [[a|e] w1] eqn:E1.
  - destruct (Hm _ _ _ E1) as [C1 T1]. destruct (Hk a _ _ _ E) as [C2 T2].
    split; [congruence | lia].
  - injection E as _ <-. exact (Hm _ _ _ E1).
Qed.

Lemma frames_try_catch {A} (m : M A) (h : string -> M A) :
  frames m -> (forall e, frames (h e)) -> frames (try_catch m h).
Proof.
  intros Hm Hh w r w' E. unfold try_catch in E.
  destruct (m w) as [[a|e] w1] eqn:E1.
  - injection E as _ <-. exact (Hm _ _ _ E1).
  - destruct (Hm _ _ _ E1) as [C1 T1]. destruct (Hh e _ _ _ E) as [C2 T2].
    split; [congruence | lia].
Qed.

Lemma frames_for_each {X S} (body : S -> X -> M S) (xs : list X) :
  (forall acc x, frames (body acc x)) -> forall acc, frames (for_each xs body acc).
Proof.
  intros Hb. induction xs as [|x xs IH]; intros acc; cbn [for_each].
  - apply frames_ret.
  - apply frames_bind; [apply Hb | exact IH].
Qed.

Variable tokenize : string -> list string.
Variable remove : option (list string -> list string).
Variable stem : string -> string.
Variable Date_parse : string -> option Z.
Variable network : nat -> string -> feed_result.

Lemma frames_parseURL (url : string) : frames (parseURL network url).
Proof.
  intros w r w' E. unfold parseURL in E.
  destruct (network (ticks w) url); injection E as _ <-;
    (split; [reflexivity | lia]).
Qed.

Create HintDb frames.
#[local] Hint Resolve frames_ret frames_throw frames_new_Date frames_bind
  frames_try_catch frames_for_each frames_parseURL : frames.

(** Splits the computation along its binds and handlers. *)
Ltac frame := repeat (intros; auto 8 with frames).

Lemma frames_process_entry (searchTerm : string) (oneWeekAgo : Z) (e : entry) :
  frames (process_entry tokenize remove stem Date_parse clock
            searchTerm oneWeekAgo e).
Proof.
  unfold process_entry.
  destruct (extractSourceFromTitle (or_empty (e_title e))) as [cleanTitle src].
  apply frames_bind.
  - unfold resolve_date, parseDate.
    destruct (js_or (e_pubDate e) (e_isoDate e)) as [[|c s]|]; frame.
  - intros d. destruct (date_lt d oneWeekAgo); [frame|].
    destruct d as [t|]; [|frame].
    apply frames_bind; [frame|]. intros currentTime.
    destruct (make_article tokenize remove stem searchTerm cleanTitle src e t
                currentTime); frame.
Qed.

(** A refresh leaves the cache alone: only the handlers write it. *)
Lemma frames_fetchGoogleNews :
  frames (fetchGoogleNews tokenize remove stem Date_parse clock network).
Proof.
  unfold fetchGoogleNews, collect.
  apply frames_bind; [|frame]. apply frames_bind; [frame|].
  intros now. apply frames_for_each. intros acc [searchTerm url].
  unfold feed_step. apply frames_try_catch; [|frame].
  apply frames_bind; [frame|].
  intros [[|e items]|]; [frame| |frame].
  apply frames_bind; [|unfold delay; frame].
  apply frames_for_each. intros acc' e'. unfold entry_step.
  apply frames_try_catch; [|frame].
  apply frames_bind; [apply frames_process_entry|].
  intros [a|]; frame.
Qed.

End Frames.

Section Cache.

Variable clock : nat -> Z.
Variable fetch : M (list article).

#[local] Abbreviation api := (api_breach_news clock).

Lemma make_result_run (articles : list article) (w : world) :
  make_result clock articles w
  = (Ok (result_at clock articles (ticks w)), tick (tick (tick w))).
Proof. reflexivity. Qed.

(** A fresh cache is served as it is; the fetch is not called. *)
Lemma api_fresh (f : M (list article)) (w : world) (d : result) :
  cache_valid (newsCache w) (clock (ticks w)) = Some d ->
  api f w = (Ok {| status := 200; resp_body := Json d |}, tick w).
Proof.
  intros H. unfold api_breach_news, try_catch, bind, new_Date, get_cache.
  cbn [tick newsCache]. now rewrite H.
Qed.

(** Otherwise the fetch runs; when it succeeds its result is stored under
    the time the request came in, and sent. *)
Lemma api_refresh (w w1 : world) (fetched : list article) :
  cache_valid (newsCache w) (clock (ticks w)) = None ->
  fetch (tick w) = (Ok fetched, w1) ->
  api fetch w
  = (Ok {| status := 200;
           resp_body := Json (result_at clock fetched (ticks w1)) |},
     {| ticks := S (S (S (ticks w1)));
        newsCache := {| data := Some (result_at clock fetched (ticks w1));
                        timestamp := Some (clock (ticks w));
                        expiresIn := expiresIn (newsCache w1) |} |}).
Proof.
  intros H F. unfold api_breach_news, try_catch, bind, new_Date, get_cache.
  cbn [tick newsCache]. rewrite H. fold (tick w). rewrite F.
  rewrite make_result_run. reflexivity.
Qed.

(** When the fetch throws, the handler answers 500 from the world the fetch
    left, without a write of its own. *)
Lemma api_failure (w w1 : world) (message : string) :
  cache_valid (newsCache w) (clock (ticks w)) = None ->
  fetch (tick w) = (Throw message, w1) ->
  api fetch w
  = (Ok {| status := 500; resp_body := JsonError message |}, w1).
Proof.
  intros H F. unfold api_breach_news, try_catch, bind, new_Date, get_cache.
  cbn [tick newsCache]. rewrite H. fold (tick w). now rewrite F.
Qed.

(** C10: when the fetch that a request to [/api/breach-news] starts throws,
    the handler answers with status 500 and the message, and [newsCache] is
    what it was before the request. *)
Theorem fetch_error_keeps_cache (w w1 : world) (message : string) :
  frames fetch ->
  cache_valid (newsCache w) (clock (ticks w)) = None ->
  fetch (tick w) = (Throw message, w1) ->
  exists w',
    api fetch w
    = (Ok {| status := 500; resp_body := JsonError message |}, w') /\
    newsCache w' = newsCache w.
Proof.
  intros Fr H F. exists w1. split; [now apply api_failure|].
  destruct (Fr _ _ _ F) as [C _]. exact C.
Qed.

(** C5: with a clock that does not go back and a fetch that leaves the cache
    alone, take a request that comes in at [t0] and fills the cache, a second
    one at [t0 + 30 min] and a third one at [t0 + 61 min].  The second is
    answered with the payload of the first, whatever the fetch would do,
    after one read of the clock; the third fetches again and its payload has
    another [generated_at]. *)
Theorem cache_serves_within_ttl
  (w0 w1 w3 wa wb wc : world) (fetched1 fetched3 : list article)
  (r1 r2 r3 : outcome response) (n2 n3 : nat) :
  (forall n m, (n <= m)%nat -> (clock n <= clock m)%Z) ->
  frames fetch ->
  clock (ticks w0) <> 0%Z ->
  expiresIn (newsCache w0) = 3600000%Z ->
  cache_valid (newsCache w0) (clock (ticks w0)) = None ->
  fetch (tick w0) = (Ok fetched1, w1) ->
  api fetch w0 = (r1, wa) ->
  (ticks wa <= n2)%nat ->
  clock n2 = (clock (ticks w0) + 30 * 60 * 1000)%Z ->
  api fetch (later wa n2) = (r2, wb) ->
  (ticks wb <= n3)%nat ->
  clock n3 = (clock (ticks w0) + 61 * 60 * 1000)%Z ->
  fetch (tick (later wb n3)) = (Ok fetched3, w3) ->
  api fetch (later wb n3) = (r3, wc) ->
  JsDate.valid_time (clock (ticks w1)) ->
  JsDate.valid_time (clock (ticks w3)) ->
  exists p1 p3,
    r1 = Ok {| status := 200; resp_body := Json p1 |} /\
    r2 = Ok {| status := 200; resp_body := Json p1 |} /\
    (forall f, api f (later wa n2) = (r2, tick (later wa n2))) /\
    r3 = Ok {| status := 200; resp_body := Json p3 |} /\
    generated_at (result_meta p3) <> generated_at (result_meta p1).
Proof.
  intros Mono Fr T0 TTL Miss F1 A1 L2 C2 A2 L3 C3 F3 A3 V1 V3.
  rewrite (api_refresh _ _ _ Miss F1) in A1. injection A1 as R1 Ewa.
  destruct (Fr _ _ _ F1) as [K1 T1].
  set (p1 := result_at clock fetched1 (ticks w1)) in *.
  set (c1 := {| data := Some p1; timestamp := Some (clock (ticks w0));
                expiresIn := expiresIn (newsCache w1) |}) in *.
  assert (newsCache wa = c1) as Ca by (now rewrite <- Ewa).
  assert (ticks wa = S (S (S (ticks w1)))) as Ta by (now rewrite <- Ewa).
  assert (forall n, cache_valid c1 (clock n)
          = if (clock n - clock (ticks w0) <? 3600000)%Z then Some p1 else None)
    as CV.
  { intros n. unfold cache_valid, c1. cbn [data timestamp expiresIn].
    rewrite K1. cbn [tick newsCache]. rewrite TTL.
    destruct (Z.eqb_spec (clock (ticks w0)) 0); [contradiction | reflexivity]. }
  assert (forall f, api f (later wa n2)
            = (Ok {| status := 200; resp_body := Json p1 |}, tick (later wa n2)))
    as Hit.
  { intros f. apply api_fresh. cbn [later newsCache ticks]. rewrite Ca, CV, C2.
    now replace (clock (ticks w0) + 30 * 60 * 1000 - clock (ticks w0) <? 3600000)%Z
      with true by (symmetry; lia). }
  rewrite Hit in A2. injection A2 as R2 Ewb.
  assert (cache_valid (newsCache (later wb n3)) (clock (ticks (later wb n3)))
          = None) as Miss3.
  { rewrite <- Ewb. cbn [later tick newsCache ticks]. rewrite Ca, CV, C3.
    now replace (clock (ticks w0) + 61 * 60 * 1000 - clock (ticks w0) <? 3600000)%Z
      with false by (symmetry; lia). }
  rewrite (api_refresh _ _ _ Miss3 F3) in A3. injection A3 as R3 _.
  exists p1, (result_at clock fetched3 (ticks w3)).
  split; [now symmetry|]. split; [now symmetry|].
  split; [intros f; rewrite Hit; now rewrite R2|].
  split; [now symmetry|].
  cbn [generated_at result_meta result_at p1]. intros E.
  apply toISOString_inj in E; [|exact V3|exact V1].
  destruct (Fr _ _ _ F3) as [_ T3].
  rewrite <- Ewb in L3. cbn [tick later ticks] in T1, T3, L3.
  pose proof (Mono (ticks w1) n2 ltac:(lia)).
  pose proof (Mono n3 (ticks w3) ltac:(lia)).
  lia.
Qed.

End Cache.

(** ** Report renderer *)

Section Report.

Lemma generateHtmlReport_run (clock : nat -> Z) (a : article)
  (l : list article) (w : world) :
  generateHtmlReport clock (Some (a :: l)) w
  = (Ok (report_document (a :: l) (clock (ticks w)) (clock (S (ticks w)))
                         (clock (S (S (ticks w))))),
     tick (tick (tick w))).
Proof. reflexivity. Qed.

(** C8 (amended): the renderer does no I/O and leaves the cache alone, but it
    reads the clock.  For an absent or empty list it returns one fixed
    document, whatever the clock and the state.  For a non-empty list it
    reads the clock three times and the document is a function of the list
    and of these three times: two calls on the same list that read the same
    times return the same document. *)
Theorem generateHtmlReport_depends_on_clock
  (clock1 clock2 : nat -> Z) (articles : option (list article)) (w1 w2 : world) :
  (articles = None \/ articles = Some [] ->
     generateHtmlReport clock1 articles w1 = (Ok no_articles_document, w1)) /\
  (exists document, fst (generateHtmlReport clock1 articles w1) = Ok document) /\
  newsCache (snd (generateHtmlReport clock1 articles w1)) = newsCache w1 /\
  ((forall i, (i < 3)%nat -> clock1 (ticks w1 + i)%nat = clock2 (ticks w2 + i)%nat) ->
     fst (generateHtmlReport clock1 articles w1)
     = fst (generateHtmlReport clock2 articles w2)).
Proof.
  destruct articles as [[|a l]|].
  - repeat split; try reflexivity. now exists no_articles_document.
  - split; [intros [H|H]; discriminate H|].
    rewrite !generateHtmlReport_run. cbn [fst snd].
    split; [eexists; reflexivity|]. split; [reflexivity|].
    intros H.
    pose proof (H 0%nat ltac:(lia)) as H0.
    pose proof (H 1%nat ltac:(lia)) as H1.
    pose proof (H 2%nat ltac:(lia)) as H2.
    rewrite !Nat.add_0_r in H0.
    rewrite !Nat.add_1_r in H1.
    replace (ticks w1 + 2)%nat with (S (S (ticks w1))) in H2 by lia.
    replace (ticks w2 + 2)%nat with (S (S (ticks w2))) in H2 by lia.
    now rewrite H0, H1, H2.
  - repeat split; try reflexivity. now exists no_articles_document.
Qed.

End Report.

(** ** The server on the small host *)

Section Examples.

Lemma demo_clock_mono (n m : nat) :
  (n <= m)%nat -> (Demo.clock n <= Demo.clock m)%Z.
Proof. unfold Demo.clock. lia. Qed.

Lemma demo_fetch_frames (items : list entry) : frames (Demo.fetchGoogleNews items).
Proof. apply frames_fetchGoogleNews. Qed.

(** The example of the specification for the title splitter. *)
Example split_one :
  extractSourceFromTitle "Breach Hits Firm - Example News"
  = ("Breach Hits Firm", "Example News").
Proof. reflexivity. Qed.

Example split_none :
  extractSourceFromTitle "No Separator Here" = ("No Separator Here", "Unknown").
Proof. reflexivity. Qed.

Example split_many : extractSourceFromTitle "A - B - C" = ("A - B", "C").
Proof. reflexivity. Qed.

(** The example of the specification for the deduplicator: the second
    title is contained in the first, which came first and stays alone. *)
Example dedup_acme :
  deduplicate [Demo.titled "Major Breach At Acme Corp";
               Demo.titled "Breach At Acme Corp"]
  = [Demo.titled "Major Breach At Acme Corp"] /\
  deduplicate [Demo.titled "Breach At Acme Corp";
               Demo.titled "Major Breach At Acme Corp"]
  = [Demo.titled "Breach At Acme Corp"].
Proof. split; reflexivity. Qed.

(** Only accepted titles are in [seenTitles]: a title that was rejected
    blocks nothing.  Here the second title is rejected for the first, and
    the third, which is part of the second but not of the first, is
    accepted. *)
Example dedup_rejected_title_blocks_nothing :
  deduplicate [Demo.titled "bank"; Demo.titled "bank hacked"; Demo.titled "hacked"]
  = [Demo.titled "bank"; Demo.titled "hacked"].
Proof. reflexivity. Qed.

(** C4 at a text of two words: the call of [removeStopwords] throws. *)
Example keywords_breach_2024 :
  Demo.extractKeywords (Some "breach 2024") 5
  = Throw "removeStopwords is not a function".
Proof. reflexivity. Qed.

(** No item becomes an article: the item of three hours ago, the one dated
    in 2030 and the one without a date string pass the recency test and are
    dropped when [extractKeywords] throws; the one whose date string is not a
    date is dropped when [toISOString] throws. *)
Example refresh_of_four_items :
  fst (Demo.fetchGoogleNews
         [Demo.recent_item; Demo.future_item; Demo.dateless_item;
          Demo.undated_item]
         Demo.world0)
  = Ok [].
Proof. reflexivity. Qed.

(** The relative ages of the specification. *)
Example age_25_hours : timeAgo (25 * 3600000) = "1 day ago".
Proof. reflexivity. Qed.

Example age_3_hours : timeAgo (3 * 3600000) = "3 hours ago".
Proof. reflexivity. Qed.

(** C9, an instance: the article of an entry without a title comes first,
    two more come after it. *)
Lemma empty_title_blocks_the_rest_witness :
  deduplicate (([] ++ [Demo.untitled]) ++ [Demo.sample; Demo.sample])
  = deduplicate ([] ++ [Demo.untitled]).
Proof.
  apply (empty_title_blocks_the_rest [] Demo.untitled [Demo.sample; Demo.sample]);
    reflexivity.
Defined.

(** C7, an instance: the item with the date string ["not a date"]. *)
Lemma unparseable_date_is_dropped_witness :
  Demo.entry_step "Data Breach" (Demo.clock 0 - 7 * JsDate.msPerDay) []
                  Demo.undated_item (tick Demo.world0)
  = (Ok [], tick Demo.world0).
Proof.
  apply (unparseable_date_is_dropped Demo.tokenize stopword_remove Demo.stem
           Demo.Date_parse Demo.clock "Data Breach" _ [] Demo.undated_item
           "n" "ot a date" (tick Demo.world0)); reflexivity.
Defined.

(** C7: in a whole refresh the item leaves no article, where the claim asks
    for one dated by the clock. *)
Example undated_item_refresh :
  fst (Demo.fetchGoogleNews [Demo.undated_item] Demo.world0) = Ok [].
Proof. reflexivity. Qed.

(** C10, an instance: the fetch fails on an empty cache. *)
Lemma fetch_error_keeps_cache_witness :
  exists w',
    api_breach_news Demo.clock (throw "socket hang up") Demo.world0
    = (Ok {| status := 500; resp_body := JsonError "socket hang up" |}, w') /\
    newsCache w' = newsCache Demo.world0.
Proof.
  apply (fetch_error_keeps_cache Demo.clock (throw "socket hang up")
           Demo.world0 (tick Demo.world0) "socket hang up").
  - apply frames_throw.
  - reflexivity.
  - reflexivity.
Defined.

(** C5, an instance: the three requests on the small host. *)
Lemma cache_serves_within_ttl_witness :
  exists p1 p3,
    fst Demo.first = Ok {| status := 200; resp_body := Json p1 |} /\
    fst Demo.second = Ok {| status := 200; resp_body := Json p1 |} /\
    fst Demo.third = Ok {| status := 200; resp_body := Json p3 |} /\
    generated_at (result_meta p3) <> generated_at (result_meta p1).
Proof.
  destruct (cache_serves_within_ttl Demo.clock Demo.fetch1
              Demo.world0
              (snd (Demo.fetch1 (tick Demo.world0)))
              (snd (Demo.fetch1 (tick (later (snd Demo.second) 3660))))
              (snd Demo.first) (snd Demo.second) (snd Demo.third)
              (Demo.fetched (fst (Demo.fetch1 (tick Demo.world0))))
              (Demo.fetched (fst (Demo.fetch1 (tick (later (snd Demo.second) 3660)))))
              (fst Demo.first) (fst Demo.second) (fst Demo.third)
              1800 3660)
    as (p1 & p3 & R1 & R2 & _ & R3 & G).
  - apply demo_clock_mono.
  - apply demo_fetch_frames.
  - vm_compute. discriminate.
  - reflexivity.
  - reflexivity.
  - vm_compute. reflexivity.
  - vm_compute. reflexivity.
  - apply Nat.leb_le. vm_compute. reflexivity.
  - vm_compute. reflexivity.
  - vm_compute. reflexivity.
  - apply Nat.leb_le. vm_compute. reflexivity.
  - vm_compute. reflexivity.
  - vm_compute. reflexivity.
  - vm_compute. reflexivity.
  - vm_compute. split; intros H; discriminate H.
  - vm_compute. split; intros H; discriminate H.
  - exists p1, p3. repeat split; assumption.
Defined.

(** C8, the claim as written fails: two calls on the same list, the second
    one minute after the first, return documents that differ (in the time of
    the footer). *)
Lemma generateHtmlReport_counterexample :
  exists document1 document2,
    fst (generateHtmlReport Demo.clock (Some [Demo.sample]) Demo.world0)
    = Ok document1 /\
    fst (generateHtmlReport Demo.clock (Some [Demo.sample]) (later Demo.world0 60))
    = Ok document2 /\
    document1 <> document2.
Proof.
  eexists. eexists. split; [reflexivity|]. split; [reflexivity|].
  apply String.eqb_neq. vm_compute. reflexivity.
Qed.

End Examples.

(** * Further properties *)

(** ** Title splitter: from a headline and back *)

Section TitleRoundTrip.

Lemma prefix_append_short (p a b : string) :
  (String.length p <= String.length a)%nat ->
  prefix p (a ++ b) = prefix p a.
Proof.
  revert a. induction p as [|c p IH]; intros a L.
  - now rewrite !prefix_nil.
  - destruct a as [|d a]; [simpl in L; lia|].
    cbn [append prefix]. destruct (ascii_dec c d); [|reflexivity].
    apply IH. simpl in L. lia.
Qed.

(** A title that neither holds the separator nor ends with [" -"], followed
    by the separator and a source without separator, is cut in two. *)
Lemma split_title_source (t s : string) :
  Str.includes (t ++ " -") " - " = false ->
  Str.includes s " - " = false ->
  Str.split (t ++ " - " ++ s) " - " = [t; s].
Proof.
  intros Ht Hs. induction t as [|c t IH].
  - change ("" ++ " - " ++ s) with (" - " ++ s).
    rewrite (split_match " " "- " s), (split_free " " "- " s Hs). reflexivity.
  - change (String c t ++ " -") with (String c (t ++ " -")) in Ht.
    rewrite includes_cons, orb_false_iff in Ht. destruct Ht as [P Ht].
    change (String c t ++ " - " ++ s) with (String c (t ++ " - " ++ s)).
    rewrite (split_nomatch " " "- ").
    + rewrite (IH Ht). reflexivity.
    + transitivity (prefix " - " (String c t ++ " -")); [|exact P].
      change (String c (t ++ " - " ++ s)) with (String c t ++ " -" ++ " " ++ s).
      rewrite <- append_assoc.
      apply prefix_append_short. rewrite length_append. simpl. lia.
Qed.

(** X1: a headline made of a title, the separator and a source is split back
    into that title and that source, provided the source holds no separator
    and the title neither holds one nor ends with [" -"]. *)
Theorem extractSourceFromTitle_round_trip (t s : string) :
  Str.includes (t ++ " -") " - " = false ->
  Str.includes s " - " = false ->
  extractSourceFromTitle (t ++ " - " ++ s) = (t, s).
Proof.
  intros Ht Hs. unfold extractSourceFromTitle.
  replace (Str.includes (t ++ " - " ++ s) " - ") with true
    by (symmetry; apply includes_iff; now exists t, s).
  rewrite (split_title_source t s Ht Hs). reflexivity.
Qed.

Lemma extractSourceFromTitle_round_trip_witness :
  extractSourceFromTitle ("Breach Hits Firm" ++ " - " ++ "Example News")
  = ("Breach Hits Firm", "Example News").
Proof.
  apply (extractSourceFromTitle_round_trip "Breach Hits Firm" "Example News");
    reflexivity.
Defined.

End TitleRoundTrip.

(** ** Deduplicator: what the accepted list looks like *)

Section DedupMore.

Lemma unrelated_titles_of_dedup (l : list article) :
  unrelated_titles (deduplicate l).
Proof.
  unfold unrelated_titles.
  pose proof (deduplicate_unrelated l) as H.
  induction H as [|a u Ha Hu IH]; constructor; [|exact IH].
  eapply Forall_impl; [|exact Ha]. cbn beta. intros b Hb.
  now rewrite related_sym.
Qed.

(** On candidates none of which is in the substring relation with an
    accepted title or with another candidate, the loop accepts them all. *)
Lemma dedup_fold_unrelated (l : list article) (seen : list string)
  (uniq : list article) :
  seen = map titleLower uniq ->
  Forall (fun a => Forall (fun b => related (titleLower b) (titleLower a) = false) l)
         uniq ->
  unrelated_titles l ->
  snd (fold_left dedup_step l (seen, uniq)) = (uniq ++ l)%list.
Proof.
  revert seen uniq. induction l as [|a l IH]; intros seen uniq Hs Hu Hl.
  - simpl. now rewrite app_nil_r.
  - cbn [fold_left]. unfold dedup_step at 2.
    assert (isDuplicate seen (titleLower a) = false) as E.
    { apply isDuplicate_false_iff. intros s Hin. subst seen.
      apply in_map_iff in Hin. destruct Hin as (b & <- & Hb).
      rewrite Forall_forall in Hu. specialize (Hu b Hb).
      apply Forall_inv in Hu. exact Hu. }
    rewrite E, (set_add_fresh _ _ E).
    inversion Hl as [|? ? Ha Hl']; subst.
    rewrite (IH (map titleLower uniq ++ [titleLower a])%list (uniq ++ [a])%list).
    + now rewrite <- app_assoc.
    + now rewrite map_app.
    + apply Forall_app. split.
      * eapply Forall_impl; [|exact Hu]. cbn beta. intros b Hb.
        now apply Forall_inv_tail in Hb.
      * constructor; [|constructor].
        eapply Forall_impl; [|exact Ha]. cbn beta. intros b Hb.
        now rewrite related_sym.
    + exact Hl'.
Qed.

Lemma deduplicate_fixed (l : list article) :
  unrelated_titles l -> deduplicate l = l.
Proof.
  intros H. unfold deduplicate, dedup_run.
  now rewrite (dedup_fold_unrelated l [] []).
Qed.

(** X2: de-duplicating twice changes nothing more: the accepted articles
    are pairwise out of the substring relation, so a second pass accepts
    each of them. *)
Theorem deduplicate_idempotent (l : list article) :
  deduplicate (deduplicate l) = deduplicate l.
Proof. apply deduplicate_fixed, unrelated_titles_of_dedup. Qed.

Lemma deduplicate_length (l : list article) :
  (List.length (deduplicate l) <= List.length l)%nat.
Proof.
  induction l as [|a l IH] using rev_ind; [simpl; lia|].
  rewrite deduplicate_snoc, length_app.
  destruct (isDuplicate (map titleLower (deduplicate l)) (titleLower a));
    [|rewrite length_app]; simpl; lia.
Qed.

(** X3: the first candidate is always accepted and stays first, whatever
    its title; every accepted article is one of the candidates, and there
    are never more of them than candidates. *)
Theorem deduplicate_keeps_first (a : article) (l : list article) :
  (exists rest, deduplicate (a :: l) = a :: rest) /\
  (forall b, In b (deduplicate (a :: l)) -> In b (a :: l)) /\
  (List.length (deduplicate (a :: l)) <= List.length (a :: l))%nat.
Proof.
  split; [|split].
  - destruct (deduplicate_extends [a] l) as [rest E]. now exists rest.
  - intros b. apply deduplicate_incl.
  - apply deduplicate_length.
Qed.

End DedupMore.

(** ** Aggregator: what every returned article satisfies *)

Section FetchMore.

Variable tokenize : string -> list string.
Variable remove : option (list string -> list string).
Variable stem : string -> string.
Variable Date_parse : string -> option Z.
Variable clock : nat -> Z.
Variable network : nat -> string -> feed_result.

#[local] Abbreviation step :=
  (entry_step tokenize remove stem Date_parse clock).
#[local] Abbreviation feed :=
  (feed_step tokenize remove stem Date_parse clock network).
#[local] Abbreviation gather :=
  (collect tokenize remove stem Date_parse clock network).
#[local] Abbreviation fetch :=
  (fetchGoogleNews tokenize remove stem Date_parse clock network).

Lemma for_each_invariant_in {X S} (I : S -> Prop) (body : S -> X -> M S)
  (xs : list X) :
  (forall acc x w, In x xs -> I acc ->
     exists acc' w', body acc x w = (Ok acc', w') /\ I acc') ->
  forall acc w, I acc ->
    exists acc' w', for_each xs body acc w = (Ok acc', w') /\ I acc'.
Proof.
  induction xs as [|x xs IH]; intros Hb acc w Hacc.
  - exists acc, w. split; [reflexivity | exact Hacc].
  - cbn [for_each]. unfold bind.
    destruct (Hb acc x w (or_introl eq_refl) Hacc) as (acc1 & w1 & E & H1).
    rewrite E. apply IH; [|exact H1].
    intros acc' y w' Hy. apply Hb. now right.
Qed.

(** An entry either leaves the array as it is or pushes the article made
    from its split title, its date, the time it was processed and the
    keywords that [extractKeywords] returned. *)
Lemma entry_step_article (searchTerm : string) (oneWeekAgo : Z)
  (articles : list article) (e : entry) (w : world) :
  exists w',
    step searchTerm oneWeekAgo articles e w = (Ok articles, w') \/
    exists t currentTime keywords,
      step searchTerm oneWeekAgo articles e w
      = (Ok (articles
             ++ [pushed_article searchTerm
                   (fst (extractSourceFromTitle (or_empty (e_title e))))
                   (snd (extractSourceFromTitle (or_empty (e_title e))))
                   e t currentTime keywords])%list, w').
Proof.
  destruct (process_entry_run tokenize remove stem Date_parse clock
              searchTerm oneWeekAgo e w) as (d & w1 & _ & P).
  unfold entry_step, try_catch, bind. rewrite P.
  destruct d as [t|].
  - destruct (t <? oneWeekAgo)%Z.
    + exists w1. now left.
    + exists (tick w1). unfold make_article.
      destruct (extractKeywords tokenize remove stem _ 5) as [kw|m].
      * right. now exists t, (clock (ticks w1)), kw.
      * now left.
  - exists w1. now left.
Qed.

Section Invariant.

(** A property of articles that holds of every article an entry of a
    configured feed can give. *)
Variable P : article -> Prop.
Hypothesis P_made :
  forall searchTerm url e t currentTime keywords,
    In (searchTerm, url) essential_feeds ->
    P (pushed_article searchTerm
         (fst (extractSourceFromTitle (or_empty (e_title e))))
         (snd (extractSourceFromTitle (or_empty (e_title e))))
         e t currentTime keywords).

Lemma feed_step_forall (oneWeekAgo : Z) (articles : list article)
  (f : string * string) (w : world) :
  In f essential_feeds -> Forall P articles ->
  exists articles' w',
    feed oneWeekAgo articles f w = (Ok articles', w') /\ Forall P articles'.
Proof.
  intros Hf H. destruct f as [searchTerm url].
  unfold feed_step, try_catch, bind at 1, parseURL.
  destruct (network (ticks w) url) as [m|[items|]].
  - now exists articles, w.
  - destruct items as [|e items]; [now exists articles, w|].
    destruct (for_each_invariant (Forall P) (step searchTerm oneWeekAgo)
                (e :: items)) with (acc := articles) (w := w)
      as (articles' & w' & E & H'); [|exact H|].
    + intros acc x w0 Hacc.
      destruct (entry_step_article searchTerm oneWeekAgo acc x w0)
        as (w1 & [E|(t & ct & kw & E)]).
      * now exists acc, w1.
      * eexists. exists w1. split; [exact E|].
        apply Forall_app. split; [exact Hacc|].
        constructor; [|constructor]. now apply (P_made searchTerm url).
    + unfold bind. rewrite E. now exists articles', w'.
  - now exists articles, w.
Qed.

Lemma collect_forall (w : world) :
  exists articles w', gather w = (Ok articles, w') /\ Forall P articles.
Proof.
  unfold collect, bind at 1. rewrite new_Date_run.
  apply for_each_invariant_in; [|constructor].
  intros acc f w1 Hf. now apply feed_step_forall.
Qed.

Lemma fetchGoogleNews_forall (w : world) :
  exists sorted w', fetch w = (Ok sorted, w') /\ Forall P sorted.
Proof.
  destruct (collect_forall w) as (articles & w' & E & H).
  exists (sortArticles (deduplicate articles)), w'.
  split; [unfold fetchGoogleNews, bind; now rewrite E|].
  rewrite Forall_forall in *. intros a Ha.
  apply H, deduplicate_incl. now apply sortArticles_in.
Qed.

End Invariant.

Lemma unrelated_titles_perm (l l' : list article) :
  Permutation l l' -> unrelated_titles l -> unrelated_titles l'.
Proof.
  unfold unrelated_titles. induction 1 as [|x l l' Hp IH|x y l|l l' l'' _ IH1 _ IH2];
    intros H.
  - constructor.
  - inversion H as [|? ? Hx Hl]; subst. constructor; [|now apply IH].
    eapply Permutation_Forall; [exact Hp | exact Hx].
  - inversion H as [|? ? Hy Hl]; subst.
    inversion Hl as [|? ? Hx Hl']; subst.
    inversion Hy as [|? ? Hyx Hy']; subst.
    constructor; [|constructor; assumption].
    constructor; [now rewrite related_sym | assumption].
  - auto.
Qed.

Lemma unrelated_titles_nodup (l : list article) :
  unrelated_titles l -> NoDup (map titleLower l).
Proof.
  unfold unrelated_titles. induction 1 as [|a l Ha Hl IH]; [constructor|].
  cbn [map]. constructor; [|exact IH].
  intros Hin. apply in_map_iff in Hin. destruct Hin as (b & E & Hb).
  rewrite Forall_forall in Ha. specialize (Ha b Hb).
  rewrite E, related_refl in Ha. discriminate.
Qed.

(** X4: in the result of a refresh no two articles have titles one of which
    contains the other (lower case); in particular no two articles have the
    same lower-case title. *)
Theorem fetchGoogleNews_unrelated_titles (w : world) :
  exists sorted w',
    fetch w = (Ok sorted, w') /\
    unrelated_titles sorted /\
    NoDup (map titleLower sorted) /\
    (forall i j a b,
        nth_error sorted i = Some a -> nth_error sorted j = Some b ->
        i <> j ->
        Str.includes (titleLower a) (titleLower b) = false).
Proof.
  destruct (fetchGoogleNews_run tokenize remove stem Date_parse clock
              network w) as (articles & w' & _ & F).
  exists (sortArticles (deduplicate articles)), w'.
  assert (unrelated_titles (sortArticles (deduplicate articles))) as U.
  { apply (unrelated_titles_perm (deduplicate articles)).
    - symmetry. apply sort_by_perm.
    - apply unrelated_titles_of_dedup. }
  split; [exact F|]. split; [exact U|].
  split; [now apply unrelated_titles_nodup|].
  generalize dependent (sortArticles (deduplicate articles)).
  intros sorted _ U. unfold unrelated_titles in U.
  induction U as [|x l Hx Hl IH]; intros i j a b Hi Hj Hij.
  - destruct i; discriminate.
  - rewrite Forall_forall in Hx.
    destruct i as [|i], j as [|j]; simpl in Hi, Hj.
    + congruence.
    + injection Hi as ->. apply nth_error_In in Hj.
      specialize (Hx b Hj). unfold related in Hx.
      now apply orb_false_iff in Hx.
    + injection Hj as ->. apply nth_error_In in Hi.
      specialize (Hx a Hi). unfold related in Hx.
      now apply orb_false_iff in Hx.
    + apply (IH i j); auto.
Qed.

(** X5: every article of the result of a refresh carries the label of one of
    the four configured feeds, and its source holds no separator. *)
Theorem fetchGoogleNews_labels (w : world) :
  exists sorted w',
    fetch w = (Ok sorted, w') /\
    Forall (fun a =>
              In (search_term a)
                 ["Data Breach"; "Ransomware"; "Data Leak";
                  "Cybersecurity Incident"]
              /\ Str.includes (source a) " - " = false)
           sorted.
Proof.
  apply fetchGoogleNews_forall.
  intros searchTerm url e t currentTime kw Hf.
  cbn [search_term source pushed_article].
  split.
  - apply (in_map fst) in Hf. exact Hf.
  - destruct (Str.includes (or_empty (e_title e)) " - ") eqn:E.
    + destruct (extractSourceFromTitle_cut _ E) as (ti & so & Eq & _ & Hs & _).
      now rewrite Eq.
    + unfold extractSourceFromTitle. rewrite E. reflexivity.
Qed.

End FetchMore.

(** ** The day shown with an article *)

Section PubDate.

Lemma all_chars_append (p : ascii -> bool) (a b : string) :
  Obj.all_chars p (a ++ b) = Obj.all_chars p a && Obj.all_chars p b.
Proof.
  induction a as [|c a IH]; [reflexivity|].
  cbn [append Obj.all_chars]. now rewrite IH, andb_assoc.
Qed.

Lemma includes_char_free (x : ascii) (s : string) :
  Obj.all_chars (fun c => negb (Ascii.eqb c x)) s = true ->
  Str.includes s (String x "") = false.
Proof.
  induction s as [|c s IH]; [reflexivity|].
  cbn [Obj.all_chars]. rewrite andb_true_iff, negb_true_iff. intros [Hc Hs].
  rewrite includes_cons, (IH Hs), orb_false_r. cbn [prefix].
  destruct (ascii_dec x c) as [->|]; [|reflexivity].
  now rewrite Ascii.eqb_refl in Hc.
Qed.

(** Cutting at a code unit that the first part does not hold gives the first
    part as first piece. *)
Lemma split_char_head (x : ascii) (a r : string) :
  Str.includes a (String x "") = false ->
  hd "" (Str.split (a ++ String x "" ++ r) (String x "")) = a.
Proof.
  intros H. induction a as [|c a IH].
  - change ("" ++ String x "" ++ r) with (String x "" ++ r).
    now rewrite (split_match x "" r).
  - rewrite includes_cons, orb_false_iff in H. destruct H as [P H].
    change (String c a ++ String x "" ++ r)
      with (String c (a ++ String x "" ++ r)).
    rewrite (split_nomatch x "").
    + specialize (IH H). pose proof (split_not_nil x "" (a ++ String x "" ++ r)) as N.
      destruct (Str.split (a ++ String x "" ++ r) (String x "")) as [|q qs];
        [congruence|].
      simpl in IH. simpl. now rewrite IH.
    + transitivity (prefix (String x "") (String c a)); [|exact P].
      change (String c (a ++ String x "" ++ r))
        with (String c a ++ String x "" ++ r).
      apply prefix_append_short. simpl. lia.
Qed.

Lemma digit_not_T (k : Z) :
  (0 <= k < 10)%Z -> negb (Ascii.eqb (JsDate.digit k) "T") = true.
Proof.
  intros H.
  assert (k = 0 \/ k = 1 \/ k = 2 \/ k = 3 \/ k = 4 \/ k = 5 \/ k = 6 \/ k = 7
          \/ k = 8 \/ k = 9)%Z as C by lia.
  repeat (destruct C as [->|C]; [reflexivity|]). now subst.
Qed.

Lemma pad_no_T (w : nat) (n : Z) :
  Obj.all_chars (fun c => negb (Ascii.eqb c "T")) (JsDate.pad w n) = true.
Proof.
  revert n. induction w as [|w IH]; intros n; [reflexivity|].
  cbn [JsDate.pad]. rewrite all_chars_append, IH. cbn [Obj.all_chars andb].
  rewrite digit_not_T; [reflexivity|]. apply Z.mod_pos_bound. lia.
Qed.

Lemma isoDay_no_T (t : Z) : Str.includes (JsDate.isoDay t) "T" = false.
Proof.
  apply includes_char_free. unfold JsDate.isoDay.
  destruct (JsDate.civil_from_days (t / JsDate.msPerDay)) as [[y m] d].
  rewrite !all_chars_append, !pad_no_T. unfold JsDate.year_string.
  destruct ((0 <=? y)%Z && (y <=? 9999)%Z).
  - now rewrite pad_no_T.
  - rewrite all_chars_append, pad_no_T. now destruct (y <? 0)%Z.
Qed.

(** The first piece of the ISO string cut at ['T'] is its date. *)
Lemma isoDatePart_isoDay (t : Z) :
  hd "" (Str.split (JsDate.toISOString t) "T") = JsDate.isoDay t.
Proof.
  unfold JsDate.toISOString. apply (split_char_head "T"). apply isoDay_no_T.
Qed.

(** X6: the [pub_date] of every article of the result of a refresh is the
    UTC calendar day of its [date_obj], written year-month-day: cutting the
    ISO string at ['T'] never cuts elsewhere. *)
Theorem fetchGoogleNews_pub_date
  (tokenize : string -> list string)
  (remove : option (list string -> list string))
  (stem : string -> string) (Date_parse : string -> option Z)
  (clock : nat -> Z) (network : nat -> string -> feed_result) (w : world) :
  exists sorted w',
    fetchGoogleNews tokenize remove stem Date_parse clock network w
    = (Ok sorted, w') /\
    Forall (fun a => pub_date a = JsDate.isoDay (date_obj a)) sorted.
Proof.
  apply fetchGoogleNews_forall.
  intros searchTerm url e t currentTime kw _.
  cbn [pub_date date_obj pushed_article].
  apply isoDatePart_isoDay.
Qed.

End PubDate.

(** ** Keywords: no term twice *)

Section KeywordsDistinct.

Lemma set_keys (o : obj) (k : string) (v : jsval) :
  map fst (Obj.set o k v)
  = if mem k (map fst o) then map fst o else (map fst o ++ [k])%list.
Proof.
  induction o as [|[k' v'] o IH]; [reflexivity|].
  cbn [Obj.set map fst]. unfold mem. cbn [existsb]. fold (mem k (map fst o)).
  destruct (String.eqb k k'); cbn [orb map fst]; [reflexivity|].
  rewrite IH. now destruct (mem k (map fst o)).
Qed.

Lemma set_keys_nodup (o : obj) (k : string) (v : jsval) :
  NoDup (map fst o) -> NoDup (map fst (Obj.set o k v)).
Proof.
  intros H. rewrite set_keys. destruct (mem k (map fst o)) eqn:M; [exact H|].
  apply NoDup_app; [exact H | repeat constructor; intros [] |].
  intros x Hx [<-|[]]. apply mem_false_iff in M. contradiction.
Qed.

Lemma count_word_keys_nodup (o : obj) (word : string) :
  NoDup (map fst o) -> NoDup (map fst (count_word o word)).
Proof.
  intros H. unfold count_word.
  destruct (String.eqb word "__proto__"); [exact H|].
  now apply set_keys_nodup.
Qed.

Lemma fold_count_word_keys_nodup (l : list string) (o : obj) :
  NoDup (map fst o) -> NoDup (map fst (fold_left count_word l o)).
Proof.
  revert o. induction l as [|x l IH]; intros o H; [exact H|].
  cbn [fold_left]. apply IH. now apply count_word_keys_nodup.
Qed.

Lemma nodup_firstn {X} (n : nat) (l : list X) : NoDup l -> NoDup (firstn n l).
Proof.
  intros H. rewrite <- (firstn_skipn n l) in H.
  now apply NoDup_app_remove_r in H.
Qed.

(** X7: [extractKeywords] never returns the same term twice, whatever the
    text, the number asked for, the tokenizer, the stemmer and what the
    [stopword] package exports as [remove]: when it returns, the terms of
    the pairs are pairwise distinct. *)
Theorem extractKeywords_distinct
  (tokenize : string -> list string)
  (remove : option (list string -> list string))
  (stem : string -> string) (text : option string) (topN : Z) :
  match extractKeywords tokenize remove stem text topN with
  | Ok pairs => NoDup (map fst pairs)
  | Throw _ => True
  end.
Proof.
  destruct text as [[|c text]|]; try constructor.
  cbn [extractKeywords]. unfold removeStopwords.
  destruct remove as [f|]; [|exact I].
  set (kept := f (tokenize (Clean.clean (String c text)))).
  unfold slice0.
  assert (NoDup (map fst (sort_by by_frequency
            (Obj.entries (wordFreq stem kept)))))
    as H.
  { eapply Permutation_NoDup.
    - apply Permutation_map. symmetry.
      etransitivity; [apply sort_by_perm | apply entries_perm].
    - unfold wordFreq. apply fold_count_word_keys_nodup. constructor. }
  destruct (topN <? 0)%Z; rewrite <- firstn_map; now apply nodup_firstn.
Qed.

End KeywordsDistinct.

(** ** The refresh with the [stopword] package as it is *)

Section Published.

Variable tokenize : string -> list string.
Variable stem : string -> string.
Variable Date_parse : string -> option Z.
Variable clock : nat -> Z.
Variable network : nat -> string -> feed_result.

#[local] Abbreviation step :=
  (entry_step tokenize stopword_remove stem Date_parse clock).
#[local] Abbreviation feed :=
  (feed_step tokenize stopword_remove stem Date_parse clock network).
#[local] Abbreviation gather :=
  (collect tokenize stopword_remove stem Date_parse clock network).
#[local] Abbreviation fetch :=
  (fetchGoogleNews tokenize stopword_remove stem Date_parse clock network).

(** The text given to [extractKeywords] holds at least the space between
    the title and the summary. *)
Lemma entry_content_not_empty (cleanTitle : string) (e : entry) :
  exists c r, entry_content cleanTitle e = String c r.
Proof.
  unfold entry_content. destruct cleanTitle as [|c r]; cbn [append]; eauto.
Qed.

(** No article is made: the call of [extractKeywords] throws. *)
Lemma make_article_throws (searchTerm cleanTitle source : string) (e : entry)
  (t currentTime : Z) :
  make_article tokenize stopword_remove stem searchTerm cleanTitle source e t
               currentTime
  = Throw "removeStopwords is not a function".
Proof.
  unfold make_article.
  destruct (entry_content_not_empty cleanTitle e) as (c & r & ->).
  reflexivity.
Qed.

(** An entry leaves the array as it is. *)
Lemma entry_step_nothing (searchTerm : string) (oneWeekAgo : Z)
  (articles : list article) (e : entry) (w : world) :
  exists w', step searchTerm oneWeekAgo articles e w = (Ok articles, w').
Proof.
  destruct (process_entry_run tokenize stopword_remove stem Date_parse clock
              searchTerm oneWeekAgo e w) as (d & w1 & _ & P).
  unfold entry_step, try_catch, bind. rewrite P.
  destruct d as [t|]; [|now exists w1].
  destruct (t <? oneWeekAgo)%Z; [now exists w1|].
  rewrite make_article_throws. now exists (tick w1).
Qed.

Lemma feed_step_nothing (oneWeekAgo : Z) (articles : list article)
  (f : string * string) (w : world) :
  exists w', feed oneWeekAgo articles f w = (Ok articles, w').
Proof.
  destruct f as [searchTerm url].
  unfold feed_step, try_catch, bind at 1, parseURL.
  destruct (network (ticks w) url) as [m|[items|]]; [now exists w| |now exists w].
  destruct items as [|e items]; [now exists w|].
  destruct (for_each_invariant (fun acc => acc = articles)
              (step searchTerm oneWeekAgo) (e :: items)) with
    (acc := articles) (w := w) as (acc & w' & E & ->); [|reflexivity|].
  - intros acc x w0 ->.
    destruct (entry_step_nothing searchTerm oneWeekAgo articles x w0)
      as (w1 & E).
    now exists articles, w1.
  - unfold bind. rewrite E. now exists w'.
Qed.

Lemma collect_nothing (w : world) : exists w', gather w = (Ok [], w').
Proof.
  unfold collect, bind at 1. rewrite new_Date_run.
  destruct (for_each_invariant (fun acc => acc = @nil article)
              (feed (JsDate.addDays (clock (ticks w)) (-7))) essential_feeds)
    with (acc := @nil article) (w := tick w) as (acc & w' & E & ->);
    [|reflexivity|].
  - intros acc f w0 ->.
    destruct (feed_step_nothing (JsDate.addDays (clock (ticks w)) (-7)) [] f w0)
      as (w1 & E).
    now exists [], w1.
  - now exists w'.
Qed.

Lemma fetchGoogleNews_nothing (w : world) :
  exists w', gather w = (Ok [], w') /\ fetch w = (Ok [], w').
Proof.
  destruct (collect_nothing w) as (w' & E). exists w'. split; [exact E|].
  unfold fetchGoogleNews, bind. now rewrite E.
Qed.


(** X8: with the [stopword] package as it is, no feed entry ever becomes an
    article.  Each entry leaves the array as it is, skipped by the recency
    test or dropped by the [catch] of the entry loop, and never stops the
    loop; so a refresh returns the empty list, whatever the network, the
    clock and the date parser, and leaves the cache alone. *)
Theorem fetchGoogleNews_never_yields (w : world) :
  (forall searchTerm oneWeekAgo articles e w0,
      exists w1, step searchTerm oneWeekAgo articles e w0 = (Ok articles, w1)) /\
  exists w', fetch w = (Ok [], w') /\ newsCache w' = newsCache w.
Proof.
  split; [intros; apply entry_step_nothing|].
  destruct (fetchGoogleNews_nothing w) as (w' & _ & F).
  exists w'. split; [exact F|].
  now destruct (frames_fetchGoogleNews clock tokenize stopword_remove stem
                  Date_parse network w _ _ F).
Qed.

(** An entry without a date string is dated by the clock and passes the
    recency test unless the clock has gone back behind the window; it is
    dropped all the same, after the second read of the clock, when
    [extractKeywords] throws. *)
Lemma absent_date_is_dropped (searchTerm : string) (oneWeekAgo : Z)
  (articles : list article) (e : entry) (w : world) :
  js_or (e_pubDate e) (e_isoDate e) = None \/
  js_or (e_pubDate e) (e_isoDate e) = Some "" ->
  (oneWeekAgo <= clock (ticks w))%Z ->
  step searchTerm oneWeekAgo articles e w = (Ok articles, tick (tick w)).
Proof.
  intros Hs Hw.
  destruct (process_entry_run tokenize stopword_remove stem Date_parse clock
              searchTerm oneWeekAgo e w) as (d & w1 & R & P).
  rewrite resolve_date_run in R.
  assert (d = Some (clock (ticks w)) /\ w1 = tick w) as [-> ->].
  { destruct Hs as [Hs|Hs]; rewrite Hs in R; injection R as <- <-; now split. }
  replace (clock (ticks w) <? oneWeekAgo)%Z with false in P by (symmetry; lia).
  rewrite make_article_throws in P.
  unfold entry_step, try_catch, bind. now rewrite P.
Qed.

End Published.

(** ** The two routes and their cache *)

Section Routes.

Variable clock : nat -> Z.

#[local] Abbreviation api := (api_breach_news clock).
#[local] Abbreviation page := (report clock).

Lemma cache_valid_stored (p : result) (t0 ttl now : Z) :
  t0 <> 0%Z ->
  cache_valid {| data := Some p; timestamp := Some t0; expiresIn := ttl |} now
  = if (now - t0 <? ttl)%Z then Some p else None.
Proof.
  intros H. unfold cache_valid. cbn [data timestamp expiresIn].
  destruct (Z.eqb_spec t0 0); [contradiction | reflexivity].
Qed.

(** The renderer never throws and never writes the cache. *)
Lemma generateHtmlReport_ok (articles : list article) (w : world) :
  exists html w',
    generateHtmlReport clock (Some articles) w = (Ok html, w') /\
    newsCache w' = newsCache w /\
    (articles = [] -> html = no_articles_document).
Proof.
  destruct articles as [|a l].
  - exists no_articles_document, w. now repeat split.
  - rewrite generateHtmlReport_run. do 2 eexists.
    split; [reflexivity|]. split; [reflexivity | discriminate].
Qed.

Lemma report_fresh (f : M (list article)) (w : world) (d : result) :
  cache_valid (newsCache w) (clock (ticks w)) = Some d ->
  exists html w',
    generateHtmlReport clock (Some (articles d)) (tick w) = (Ok html, w') /\
    page f w = (Ok {| status := 200; resp_body := Html html |}, w').
Proof.
  intros H.
  destruct (generateHtmlReport_ok (articles d) (tick w)) as (html & w' & G & _).
  exists html, w'. split; [exact G|].
  unfold report, try_catch, bind, new_Date, get_cache.
  cbn [tick newsCache]. rewrite H. fold (tick w). unfold ret at 1.
  now rewrite G.
Qed.

Lemma report_refresh (f : M (list article)) (w w1 : world)
  (fetched : list article) :
  cache_valid (newsCache w) (clock (ticks w)) = None ->
  f (tick w) = (Ok fetched, w1) ->
  exists html w',
    generateHtmlReport clock (Some fetched)
      {| ticks := S (S (S (ticks w1)));
         newsCache := {| data := Some (result_at clock fetched (ticks w1));
                         timestamp := Some (clock (ticks w));
                         expiresIn := expiresIn (newsCache w1) |} |}
    = (Ok html, w') /\
    page f w = (Ok {| status := 200; resp_body := Html html |}, w').
Proof.
  intros H F.
  match goal with
  | |- exists html w', generateHtmlReport _ _ ?w0 = _ /\ _ =>
      destruct (generateHtmlReport_ok fetched w0) as (html & w' & G & _)
  end.
  exists html, w'. split; [exact G|].
  unfold report, try_catch, bind, new_Date, get_cache.
  cbn [tick newsCache]. rewrite H. fold (tick w). rewrite F.
  rewrite make_result_run.
  unfold update_cache, bind, get_cache, set_cache, ret.
  cbn [tick newsCache ticks]. now rewrite G.
Qed.

Lemma report_failure (f : M (list article)) (w w1 : world) (message : string) :
  cache_valid (newsCache w) (clock (ticks w)) = None ->
  f (tick w) = (Throw message, w1) ->
  page f w
  = (Ok {| status := 500;
           resp_body := Html ("<h1>Error</h1><p>" ++ message ++ "</p>") |}, w1).
Proof.
  intros H F. unfold report, try_catch, bind, new_Date, get_cache.
  cbn [tick newsCache]. rewrite H. fold (tick w). now rewrite F.
Qed.

(** X13: the two handlers always answer: whatever the fetch does, and
    whatever the cache holds, no exception leaves them, and the status is
    200 or 500. *)
Theorem handlers_always_answer (f : M (list article)) (w : world) :
  (exists r w', api f w = (Ok r, w') /\ (status r = 200 \/ status r = 500)) /\
  (exists r w', page f w = (Ok r, w') /\ (status r = 200 \/ status r = 500)).
Proof.
  split.
  - destruct (cache_valid (newsCache w) (clock (ticks w))) as [d|] eqn:H.
    + rewrite (api_fresh clock f w d H). do 2 eexists. split; [reflexivity|].
      now left.
    + destruct (f (tick w)) as [[fetched|m] w1] eqn:F.
      * rewrite (api_refresh clock f w w1 fetched H F). do 2 eexists.
        split; [reflexivity|]. now left.
      * rewrite (api_failure clock f w w1 m H F). do 2 eexists.
        split; [reflexivity|]. now right.
  - destruct (cache_valid (newsCache w) (clock (ticks w))) as [d|] eqn:H.
    + destruct (report_fresh f w d H) as (html & w' & _ & R).
      rewrite R. do 2 eexists. split; [reflexivity|]. now left.
    + destruct (f (tick w)) as [[fetched|m] w1] eqn:F.
      * destruct (report_refresh f w w1 fetched H F) as (html & w' & _ & R).
        rewrite R. do 2 eexists. split; [reflexivity|]. now left.
      * rewrite (report_failure f w w1 m H F). do 2 eexists.
        split; [reflexivity|]. now right.
Qed.

(** X11: when the fetch that a request to [/report] starts throws, the
    answer is status 500 with a page that shows the message as it is, and
    [newsCache] is what it was before the request. *)
Theorem report_error_keeps_cache (f : M (list article)) (w w1 : world)
  (message : string) :
  frames f ->
  cache_valid (newsCache w) (clock (ticks w)) = None ->
  f (tick w) = (Throw message, w1) ->
  exists w',
    page f w
    = (Ok {| status := 500;
             resp_body := Html ("<h1>Error</h1><p>" ++ message ++ "</p>") |},
       w') /\
    newsCache w' = newsCache w.
Proof.
  intros Fr H F. exists w1. split; [now apply report_failure|].
  destruct (Fr _ _ _ F) as [C _]. exact C.
Qed.

(** X10: the time to live is counted from the moment the refreshing request
    came in, and the bound is strict.  After a refresh by a request that
    came in at [t0], a request that comes in at [t] is answered with the
    stored payload, without a fetch, exactly when [t - t0] is below
    [expiresIn]; from [expiresIn] on the fetch runs again, and when it
    throws the stale payload is not served (the answer is 500) but stays in
    the cache. *)
Theorem cache_ttl_boundary (fetch : M (list article)) (w0 w1 wa : world)
  (fetched : list article) (r1 : outcome response) :
  frames fetch ->
  clock (ticks w0) <> 0%Z ->
  cache_valid (newsCache w0) (clock (ticks w0)) = None ->
  fetch (tick w0) = (Ok fetched, w1) ->
  api fetch w0 = (r1, wa) ->
  let p := result_at clock fetched (ticks w1) in
  r1 = Ok {| status := 200; resp_body := Json p |} /\
  (forall f n,
      (clock n - clock (ticks w0) < expiresIn (newsCache w0))%Z ->
      api f (later wa n)
      = (Ok {| status := 200; resp_body := Json p |}, tick (later wa n))) /\
  (forall n message w',
      (expiresIn (newsCache w0) <= clock n - clock (ticks w0))%Z ->
      fetch (tick (later wa n)) = (Throw message, w') ->
      api fetch (later wa n)
      = (Ok {| status := 500; resp_body := JsonError message |}, w') /\
      data (newsCache w') = Some p).
Proof.
  intros Fr T0 Miss F A p.
  rewrite (api_refresh clock fetch _ _ _ Miss F) in A. injection A as R1 Ewa.
  fold p in R1, Ewa. destruct (Fr _ _ _ F) as [K1 _]. cbn [tick newsCache] in K1.
  assert (forall n, cache_valid (newsCache (later wa n)) (clock (ticks (later wa n)))
          = if (clock n - clock (ticks w0) <? expiresIn (newsCache w0))%Z
            then Some p else None) as CV.
  { intros n. rewrite <- Ewa. cbn [later newsCache ticks].
    rewrite (cache_valid_stored _ _ _ _ T0), K1. reflexivity. }
  split; [now symmetry|]. split.
  - intros f n Hn. apply api_fresh. rewrite CV.
    now replace (clock n - clock (ticks w0) <? expiresIn (newsCache w0))%Z
      with true by (symmetry; apply Z.ltb_lt; exact Hn).
  - intros n message w' Hn F'.
    assert (cache_valid (newsCache (later wa n)) (clock (ticks (later wa n)))
            = None) as Miss'.
    { rewrite CV.
      now replace (clock n - clock (ticks w0) <? expiresIn (newsCache w0))%Z
        with false by (symmetry; apply Z.ltb_ge; exact Hn). }
    split; [now apply api_failure|].
    destruct (Fr _ _ _ F') as [C _]. rewrite C, <- Ewa. reflexivity.
Qed.

(** X12: the two routes share the cache.  After a refresh made by a request
    to [/report], a request to [/api/breach-news] within the time to live is
    answered, without a fetch, with the articles the report was made from;
    and after a refresh made by [/api/breach-news], a request to [/report]
    within the time to live renders the stored articles, without a fetch. *)
Theorem routes_share_cache (fetch : M (list article)) (w0 w1 : world)
  (fetched : list article) :
  frames fetch ->
  clock (ticks w0) <> 0%Z ->
  cache_valid (newsCache w0) (clock (ticks w0)) = None ->
  fetch (tick w0) = (Ok fetched, w1) ->
  (exists html wa,
      page fetch w0 = (Ok {| status := 200; resp_body := Html html |}, wa) /\
      forall f n,
        (clock n - clock (ticks w0) < expiresIn (newsCache w0))%Z ->
        exists p,
          api f (later wa n)
          = (Ok {| status := 200; resp_body := Json p |}, tick (later wa n)) /\
          articles p = fetched) /\
  (exists p wa,
      api fetch w0 = (Ok {| status := 200; resp_body := Json p |}, wa) /\
      articles p = fetched /\
      forall f n,
        (clock n - clock (ticks w0) < expiresIn (newsCache w0))%Z ->
        exists html w',
          generateHtmlReport clock (Some fetched) (tick (later wa n))
          = (Ok html, w') /\
          page f (later wa n)
          = (Ok {| status := 200; resp_body := Html html |}, w')).
Proof.
  intros Fr T0 Miss F. destruct (Fr _ _ _ F) as [K1 _]. cbn [tick newsCache] in K1.
  set (p := result_at clock fetched (ticks w1)).
  assert (forall w n,
            newsCache w = {| data := Some p; timestamp := Some (clock (ticks w0));
                             expiresIn := expiresIn (newsCache w1) |} ->
            (clock n - clock (ticks w0) < expiresIn (newsCache w0))%Z ->
            cache_valid (newsCache (later w n)) (clock (ticks (later w n)))
            = Some p) as CV.
  { intros w n E Hn. cbn [later newsCache ticks].
    rewrite E, (cache_valid_stored _ _ _ _ T0), K1.
    now replace (clock n - clock (ticks w0) <? expiresIn (newsCache w0))%Z
      with true by (symmetry; apply Z.ltb_lt; exact Hn). }
  split.
  - destruct (report_refresh fetch w0 w1 fetched Miss F) as (html & wa & G & R).
    exists html, wa. split; [exact R|]. intros f n Hn. exists p.
    split; [|reflexivity]. apply api_fresh. apply CV; [|exact Hn].
    match type of G with
    | generateHtmlReport _ _ ?w = _ =>
        destruct (generateHtmlReport_ok fetched w) as (h' & w'' & G' & C & _)
    end.
    rewrite G in G'. injection G' as _ <-. rewrite C. reflexivity.
  - exists p. eexists. split; [apply (api_refresh clock fetch _ _ _ Miss F)|].
    split; [reflexivity|]. intros f n Hn.
    match goal with
    | |- context [later ?w n] =>
        destruct (report_fresh f (later w n) p (CV w n eq_refl Hn))
          as (html & w' & G & R)
    end.
    exists html, w'. split; [exact G | exact R].
Qed.


End Routes.

(** ** A refresh during an outage *)

Section OutageFacts.

Variable tokenize : string -> list string.
Variable remove : option (list string -> list string).
Variable stem : string -> string.
Variable Date_parse : string -> option Z.
Variable clock : nat -> Z.
Variable network : nat -> string -> feed_result.
Hypothesis network_quiet : quiet network.

#[local] Abbreviation fetch :=
  (fetchGoogleNews tokenize remove stem Date_parse clock network).

Lemma feed_step_quiet (oneWeekAgo : Z) (articles : list article)
  (f : string * string) (w : world) :
  feed_step tokenize remove stem Date_parse clock network
            oneWeekAgo articles f w
  = (Ok articles, w).
Proof.
  destruct f as [searchTerm url]. unfold feed_step, try_catch, bind, parseURL.
  pose proof (network_quiet (ticks w) url) as Q.
  destruct (network (ticks w) url) as [m|[[|e items]|]];
    [reflexivity | reflexivity | destruct Q | reflexivity].
Qed.

Lemma for_each_unchanged {X S} (body : S -> X -> M S) (xs : list X) :
  (forall acc x w, body acc x w = (Ok acc, w)) ->
  forall acc w, for_each xs body acc w = (Ok acc, w).
Proof.
  intros H. induction xs as [|x xs IH]; intros acc w; [reflexivity|].
  cbn [for_each]. unfold bind. rewrite H. apply IH.
Qed.

(** With no item on the network a refresh returns no article, after the one
    read of the clock that sets the window. *)
Lemma fetchGoogleNews_quiet (w : world) : fetch w = (Ok [], tick w).
Proof.
  unfold fetchGoogleNews, collect, bind. rewrite new_Date_run.
  rewrite for_each_unchanged; [reflexivity|].
  intros acc f w0. apply feed_step_quiet.
Qed.

(** X9: a refresh made while no feed answers, or while every feed is empty,
    is not an error: the request to [/api/breach-news] is answered 200 with
    no article and counts of zero, and this empty payload is stored, so that
    every request within the time to live gets it again without a fetch,
    whatever has become of the network. *)
Theorem outage_is_cached (w : world) :
  clock (ticks w) <> 0%Z ->
  cache_valid (newsCache w) (clock (ticks w)) = None ->
  exists p wa,
    api_breach_news clock fetch w
    = (Ok {| status := 200; resp_body := Json p |}, wa) /\
    articles p = [] /\
    article_count (result_meta p) = 0%nat /\
    sources (result_meta p) = 0%nat /\
    forall f n,
      (clock n - clock (ticks w) < expiresIn (newsCache w))%Z ->
      api_breach_news clock f (later wa n)
      = (Ok {| status := 200; resp_body := Json p |}, tick (later wa n)).
Proof.
  intros T0 Miss.
  pose proof (api_refresh clock fetch w (tick (tick w)) [] Miss
                (fetchGoogleNews_quiet (tick w))) as A.
  do 2 eexists. split; [exact A|].
  repeat split. intros f n Hn. apply api_fresh. cbn [later newsCache ticks tick].
  rewrite (cache_valid_stored _ _ _ _ T0).
  now replace (clock n - clock (ticks w) <? expiresIn (newsCache w))%Z
    with true by (symmetry; apply Z.ltb_lt; exact Hn).
Qed.

(** X15: in the same situation a request to [/report] is answered 200 with
    the fixed page that says that no article was found. *)
Theorem outage_report_page (w : world) :
  cache_valid (newsCache w) (clock (ticks w)) = None ->
  exists w',
    report clock fetch w
    = (Ok {| status := 200; resp_body := Html no_articles_document |}, w').
Proof.
  intros Miss.
  destruct (report_refresh clock fetch w (tick (tick w)) [] Miss
              (fetchGoogleNews_quiet (tick w))) as (html & w' & G & R).
  exists w'. rewrite R. injection G as <- _. reflexivity.
Qed.

End OutageFacts.

(** ** Cleaning the text *)

Section CleanFacts.

Lemma is_space_lower_char (c : ascii) :
  Str.is_space (Str.lower_char c) = Str.is_space c.
Proof. destruct c as [[|] [|] [|] [|] [|] [|] [|] [|]]; reflexivity. Qed.

Lemma lower_char_space (c : ascii) :
  Str.is_space c = true -> Str.lower_char c = c.
Proof.
  destruct c as [[|] [|] [|] [|] [|] [|] [|] [|]]; intros H;
    first [reflexivity | discriminate H].
Qed.

Lemma lower_char_idem (c : ascii) :
  Str.lower_char (Str.lower_char c) = Str.lower_char c.
Proof. destruct c as [[|] [|] [|] [|] [|] [|] [|] [|]]; reflexivity. Qed.

Lemma toLowerCase_idem (s : string) :
  Str.toLowerCase (Str.toLowerCase s) = Str.toLowerCase s.
Proof.
  induction s as [|c r IH]; [reflexivity|].
  cbn [Str.toLowerCase]. now rewrite lower_char_idem, IH.
Qed.

(** After [replace(/\s+/g, ' ')] every run of white space is one space; after
    a run that was being read the output does not start with white space. *)
Lemma collapse_spaces_spaced (s : string) (b : bool) :
  spaced (Clean.collapse_spaces b s) = true /\
  (b = true -> no_leading_space (Clean.collapse_spaces b s) = true).
Proof.
  revert b. induction s as [|c r IH]; intros b; [now split|].
  cbn [Clean.collapse_spaces].
  destruct (Str.is_space c) eqn:Ec.
  - destruct b.
    + apply IH.
    + split; [|discriminate].
      destruct (IH true) as [S1 S2]. specialize (S2 eq_refl).
      cbn [spaced]. change (Str.is_space " ") with true.
      change (Ascii.eqb " " " ") with true. rewrite S1.
      unfold no_leading_space in S2.
      destruct (Clean.collapse_spaces true r); [reflexivity|].
      now rewrite S2.
  - destruct (IH false) as [S1 _]. split.
    + cbn [spaced]. now rewrite Ec, S1.
    + intros _. unfold no_leading_space. now rewrite Ec.
Qed.

Lemma spaced_tail (c : ascii) (r : string) :
  spaced (String c r) = true -> spaced r = true.
Proof. cbn [spaced]. intros H. now apply andb_prop in H. Qed.

Lemma trimStart_spaced (s : string) :
  spaced s = true ->
  spaced (Clean.trimStart s) = true /\
  no_leading_space (Clean.trimStart s) = true.
Proof.
  induction s as [|c r IH]; intros H; [now split|].
  cbn [Clean.trimStart]. destruct (Str.is_space c) eqn:Ec.
  - apply IH. exact (spaced_tail _ _ H).
  - split; [exact H|]. unfold no_leading_space. now rewrite Ec.
Qed.

Lemma trimEnd_nonspace (c : ascii) (r : string) :
  Str.is_space c = false ->
  Clean.trimEnd (String c r) = String c (Clean.trimEnd r).
Proof. intros H. cbn [Clean.trimEnd]. now rewrite H. Qed.

Lemma trimEnd_single_spaced (s : string) :
  spaced s = true -> single_spaced (Clean.trimEnd s) = true.
Proof.
  induction s as [|c r IH]; intros H; [reflexivity|].
  pose proof (IH (spaced_tail _ _ H)) as T.
  destruct (Str.is_space c) eqn:Ec.
  - cbn [Clean.trimEnd]. rewrite Ec. cbn [andb].
    destruct (String.eqb (Clean.trimEnd r) "") eqn:Er; [reflexivity|].
    cbn [spaced] in H. rewrite Ec in H.
    destruct r as [|d r']; [discriminate Er|].
    apply andb_prop in H. destruct H as [H _].
    apply andb_prop in H. destruct H as [H1 H2].
    apply negb_true_iff in H2.
    rewrite (trimEnd_nonspace _ _ H2) in T |- *.
    cbn [single_spaced] in T |- *. rewrite Ec, H1, H2 in *. exact T.
  - rewrite (trimEnd_nonspace _ _ Ec). cbn [single_spaced].
    rewrite Ec. exact T.
Qed.

Lemma trimEnd_no_leading_space (s : string) :
  no_leading_space s = true -> no_leading_space (Clean.trimEnd s) = true.
Proof.
  destruct s as [|c r]; [reflexivity|]. unfold no_leading_space at 1.
  intros H. apply negb_true_iff in H. rewrite (trimEnd_nonspace _ _ H).
  unfold no_leading_space. now rewrite H.
Qed.

Lemma toLowerCase_single_spaced (s : string) :
  single_spaced s = true -> single_spaced (Str.toLowerCase s) = true.
Proof.
  induction s as [|c r IH]; intros H; [reflexivity|].
  cbn [Str.toLowerCase single_spaced] in *.
  rewrite is_space_lower_char.
  apply andb_prop in H. destruct H as [H1 H2].
  rewrite (IH H2), andb_true_r.
  destruct (Str.is_space c) eqn:Ec; [|reflexivity].
  rewrite (lower_char_space _ Ec).
  destruct r as [|d r']; [exact H1|].
  cbn [Str.toLowerCase]. rewrite is_space_lower_char. exact H1.
Qed.

Lemma toLowerCase_no_leading_space (s : string) :
  no_leading_space s = true -> no_leading_space (Str.toLowerCase s) = true.
Proof.
  destruct s as [|c r]; [reflexivity|]. unfold no_leading_space.
  cbn [Str.toLowerCase]. now rewrite is_space_lower_char.
Qed.

(** X18: whatever the text, what the cleaning step of [extractKeywords]
    hands to the tokenizer has its white space reduced to single spaces
    between other code units, so that it neither starts nor ends with white
    space and has no tab or line break, and lower-casing it again changes
    nothing. *)
Theorem clean_normalised (text : string) :
  single_spaced (Clean.clean text) = true /\
  no_leading_space (Clean.clean text) = true /\
  Str.toLowerCase (Clean.clean text) = Clean.clean text.
Proof.
  unfold Clean.clean, Clean.trim.
  set (s := Clean.collapse_spaces false _).
  destruct (collapse_spaces_spaced
              (Clean.strip_urls false (Clean.strip_tags None text)) false)
    as [S _]. fold s in S.
  destruct (trimStart_spaced s S) as [S1 S2].
  split; [|split].
  - apply toLowerCase_single_spaced, trimEnd_single_spaced, S1.
  - apply toLowerCase_no_leading_space, trimEnd_no_leading_space, S2.
  - apply toLowerCase_idem.
Qed.

End CleanFacts.

Section UrlFacts.

(** [http] and a code unit that is not white space start the text. *)
#[local] Abbreviation url_here s :=
  (prefix "http" s && Clean.nonspace_follows (Str.drop 4 s)).

Lemma prefix_cons_inv (a : ascii) (p s : string) :
  prefix (String a p) s = true ->
  exists r, s = String a r /\ prefix p r = true.
Proof.
  destruct s as [|b r]; [discriminate|]. cbn [prefix].
  destruct (ascii_dec a b) as [<-|]; [|discriminate].
  intros H. now exists r.
Qed.

Lemma prefix_space (c : ascii) (r : string) :
  Str.is_space c = true -> prefix "http" (String c r) = false.
Proof.
  intros H. destruct (prefix "http" (String c r)) eqn:E; [|reflexivity].
  apply prefix_cons_inv in E. destruct E as (r' & E & _).
  injection E as -> _. discriminate H.
Qed.

(** While a URL is skipped the output is empty or starts at the white space
    that ends the URL. *)
Lemma strip_urls_skipping_head (s : string) :
  Clean.nonspace_follows (Clean.strip_urls true s) = false.
Proof.
  induction s as [|c r IH]; [reflexivity|].
  cbn [Clean.strip_urls]. destruct (Str.is_space c) eqn:Ec; [|exact IH].
  cbn [Clean.nonspace_follows]. now rewrite Ec.
Qed.

(** A first code unit of the output that is not white space is the first one
    of the input, where no URL starts. *)
Lemma strip_urls_head (s : string) (c : ascii) (o : string) :
  Clean.strip_urls false s = String c o ->
  Str.is_space c = false ->
  exists r, s = String c r /\ o = Clean.strip_urls false r.
Proof.
  destruct s as [|d r]; [discriminate|]. cbn [Clean.strip_urls].
  destruct (url_here (String d r)).
  - intros E Hc. pose proof (strip_urls_skipping_head r) as H.
    rewrite E in H. cbn [Clean.nonspace_follows] in H. now rewrite Hc in H.
  - intros E _. injection E as -> <-. now exists r.
Qed.

Lemma url_here_strip_urls (c : ascii) (r : string) :
  url_here (String c (Clean.strip_urls false r)) = true ->
  url_here (String c r) = true.
Proof.
  intros H. apply andb_prop in H. destruct H as [P N].
  apply prefix_cons_inv in P. destruct P as (o1 & E1 & P).
  injection E1 as -> E1.
  apply prefix_cons_inv in P. destruct P as (o2 & -> & P).
  apply prefix_cons_inv in P. destruct P as (o3 & -> & P).
  apply prefix_cons_inv in P. destruct P as (o4 & -> & _).
  rewrite E1 in N. cbn [Str.drop] in N.
  destruct o4 as [|x o5]; [discriminate N|].
  cbn [Clean.nonspace_follows] in N. apply negb_true_iff in N.
  destruct (strip_urls_head _ _ _ E1 eq_refl) as (r1 & -> & E2).
  symmetry in E2.
  destruct (strip_urls_head _ _ _ E2 eq_refl) as (r2 & -> & E3).
  symmetry in E3.
  destruct (strip_urls_head _ _ _ E3 eq_refl) as (r3 & -> & E4).
  symmetry in E4.
  destruct (strip_urls_head _ _ _ E4 N) as (r4 & -> & _).
  cbn [Str.drop Clean.nonspace_follows]. rewrite N. reflexivity.
Qed.

(** X19: the removal of URLs is complete in one pass: in what
    [replace(/http\S+/g, '')] returns, no [http] is followed by a code unit
    that is not white space, so a second pass would remove nothing.  The same
    holds for what is left of a text read from inside a URL. *)
Theorem strip_urls_no_url (s : string) (skipping : bool) :
  has_url (Clean.strip_urls skipping s) = false.
Proof.
  revert skipping. induction s as [|c r IH]; intros skipping.
  - now destruct skipping.
  - cbn [Clean.strip_urls]. destruct skipping.
    + destruct (Str.is_space c) eqn:Ec; [|apply IH].
      cbn [has_url]. now rewrite (prefix_space _ _ Ec), IH.
    + destruct (url_here (String c r)) eqn:U; [apply IH|].
      cbn [has_url]. rewrite IH, orb_false_r.
      destruct (url_here (String c (Clean.strip_urls false r))) eqn:V;
        [|reflexivity].
      apply url_here_strip_urls in V. congruence.
Qed.

End UrlFacts.

Section TagFacts.

Lemma newline_inside (c : ascii) :
  Str.is_newline c = true -> Ascii.eqb c ">" = false /\ Ascii.eqb c "<" = false.
Proof.
  destruct (Ascii.eqb c ">") eqn:E1.
  - apply Ascii.eqb_eq in E1. subst c. discriminate.
  - destruct (Ascii.eqb c "<") eqn:E2; [|now split].
    apply Ascii.eqb_eq in E2. subst c. discriminate.
Qed.

(** An unclosed tag that stops at a line end or at the end of the text does
    not close. *)
Lemma closes_on_line_inside (buf rest : string) :
  Obj.all_chars inside_tag buf = true ->
  (match rest with
   | EmptyString => True
   | String c _ => Str.is_newline c = true
   end) ->
  closes_on_line (buf ++ rest) = false.
Proof.
  intros B R. induction buf as [|b buf IH].
  - cbn [append]. destruct rest as [|c x]; [reflexivity|].
    cbn [closes_on_line]. destruct (newline_inside c R) as [-> _].
    now rewrite R.
  - cbn [Obj.all_chars] in B. apply andb_prop in B. destruct B as [B1 B2].
    unfold inside_tag in B1. apply andb_prop in B1. destruct B1 as [G N].
    apply negb_true_iff in G. apply negb_true_iff in N.
    cbn [append closes_on_line]. rewrite G, N. apply IH, B2.
Qed.

Lemma has_tag_inside (buf rest : string) :
  Obj.all_chars inside_tag buf = true ->
  (match rest with
   | EmptyString => True
   | String c _ => Str.is_newline c = true
   end) ->
  has_tag (buf ++ rest) = has_tag rest.
Proof.
  intros B R. induction buf as [|b buf IH]; [reflexivity|].
  cbn [Obj.all_chars] in B. apply andb_prop in B. destruct B as [_ B].
  cbn [append has_tag]. rewrite (closes_on_line_inside _ _ B R).
  rewrite andb_false_r. apply IH, B.
Qed.

(** The same with a tag open: the code units read since its ['<'] come back
    only when the line or the text ends, where they cannot close. *)
Lemma strip_tags_no_tag_pending (s : string) :
  has_tag (Clean.strip_tags None s) = false /\
  forall buf, Obj.all_chars inside_tag buf = true ->
    has_tag (Clean.strip_tags (Some buf) s) = false.
Proof.
  induction s as [|c r [IH1 IH2]].
  - split; [reflexivity|]. intros buf B. cbn [Clean.strip_tags].
    rewrite <- (append_nil_r buf) at 1.
    now rewrite (has_tag_inside buf "" B I).
  - split.
    + cbn [Clean.strip_tags]. destruct (Ascii.eqb c "<") eqn:E.
      * apply IH2. reflexivity.
      * cbn [has_tag]. now rewrite E, IH1.
    + intros buf B. cbn [Clean.strip_tags].
      destruct (Ascii.eqb c ">") eqn:G; [exact IH1|].
      destruct (Str.is_newline c) eqn:N.
      * rewrite (has_tag_inside buf (String c _) B N). cbn [has_tag].
        destruct (newline_inside c N) as [_ ->]. exact IH1.
      * apply IH2. rewrite all_chars_append, B. cbn [Obj.all_chars].
        unfold inside_tag. now rewrite G, N.
Qed.

(** X20: the removal of tags is complete in one pass: in what
    [replace(/<.*?>/g, '')] returns, no ['<'] is followed on its line by a
    ['>'].  A ['<'] that stays is one whose line has no ['>'] after it. *)
Theorem strip_tags_no_tag (s : string) :
  has_tag (Clean.strip_tags None s) = false.
Proof. apply strip_tags_no_tag_pending. Qed.

End TagFacts.

(** ** The age of an article *)

Section AgeFacts.

(** X21: the age shown with an article is counted in days exactly when the
    article is at least 24 hours old, and then the number is at least 1; it
    is counted in hours otherwise, with a number below 24, which is negative
    for an article dated after the clock.  The unit is in the singular
    exactly when the number is 1. *)
Theorem timeAgo_units (d : Z) :
  exists n unit,
    timeAgo d = Z_to_string n ++ unit ++ " ago" /\
    ((JsDate.msPerDay <= d /\ n = d / JsDate.msPerDay /\ 1 <= n /\
      unit = if n =? 1 then " day" else " days") \/
     (d < JsDate.msPerDay /\ n = d / JsDate.msPerHour /\ n < 24 /\
      unit = if n =? 1 then " hour" else " hours"))%Z.
Proof.
  unfold timeAgo.
  assert (JsDate.msPerDay = 86400000%Z) as ED by reflexivity.
  assert (JsDate.msPerHour = 3600000%Z) as EH by reflexivity.
  destruct (Z.ltb_spec 0 (d / JsDate.msPerDay)) as [P|P].
  - exists (d / JsDate.msPerDay)%Z,
      (if (d / JsDate.msPerDay =? 1)%Z then " day" else " days").
    split; [now destruct (d / JsDate.msPerDay =? 1)%Z|].
    left. rewrite ED in *.
    repeat split; try reflexivity; Z.div_mod_to_equations; lia.
  - exists (d / JsDate.msPerHour)%Z,
      (if (d / JsDate.msPerHour =? 1)%Z then " hour" else " hours").
    split; [now destruct (d / JsDate.msPerHour =? 1)%Z|].
    right. rewrite ED, EH in *.
    repeat split; try reflexivity; Z.div_mod_to_equations; lia.
Qed.

End AgeFacts.

(** ** The rows of the report *)

Section ReportRows.

Variable clock : nat -> Z.

Lemma includes_prefix (sub b : string) : Str.includes (sub ++ b) sub = true.
Proof. apply includes_iff. now exists "", b. Qed.

Lemma includes_app_r (a s sub : string) :
  Str.includes s sub = true -> Str.includes (a ++ s) sub = true.
Proof.
  rewrite !includes_iff. intros (x & y & ->). exists (a ++ x), y.
  now rewrite append_assoc.
Qed.

(** The loop over the articles appends their rows in the order of the
    list. *)
Lemma fold_rows (l : list article) (html : string) :
  fold_left (fun html article => html ++ report_row article) l html
  = html ++ report_rows l.
Proof.
  revert html. induction l as [|a l IH]; intros html.
  - cbn. now rewrite append_nil_r.
  - cbn [fold_left]. rewrite IH. unfold report_rows. cbn [map].
    destruct l as [|b l'].
    + cbn. now rewrite !append_nil_r.
    + cbn [map String.concat]. cbn [append]. now rewrite append_assoc.
Qed.

Lemma report_rows_split (l1 l2 : list article) (x : article) :
  report_rows (l1 ++ x :: l2)%list
  = report_rows l1 ++ report_row x ++ report_rows l2.
Proof.
  pose proof (fold_rows (l1 ++ x :: l2)%list "") as H.
  rewrite fold_left_app in H. cbn [fold_left] in H.
  rewrite !fold_rows in H. cbn [append] in H. rewrite <- H.
  now rewrite append_assoc.
Qed.

Ltac find_field :=
  first [ apply includes_refl
        | apply includes_prefix
        | apply includes_app_r; find_field ].

(** A row contains the seven fields of its article. *)
Lemma report_row_fields (x : article) :
  Forall (fun field => Str.includes (report_row x) field = true)
         [pub_date x; time_ago x; source x; link x; title x; keywords x;
          search_term x].
Proof.
  unfold report_row. cbn [String.concat].
  repeat (apply Forall_cons; [rewrite ?append_assoc; find_field|]).
  apply Forall_nil.
Qed.

(** X17: the report of a non-empty list has one row for every article of the
    list, and the row shows the date, the age, the source, the link, the
    title, the keywords and the search term of the article as they are:
    nothing is escaped or shortened. *)
Theorem report_lists_every_article (a : article) (l : list article)
  (w : world) (x : article) :
  In x (a :: l) ->
  exists doc w' before after,
    generateHtmlReport clock (Some (a :: l)) w = (Ok doc, w') /\
    doc = before ++ report_row x ++ after /\
    Forall (fun field => Str.includes (report_row x) field = true)
           [pub_date x; time_ago x; source x; link x; title x; keywords x;
            search_term x].
Proof.
  intros H. apply in_split in H. destruct H as (l1 & l2 & E).
  rewrite generateHtmlReport_run. unfold report_document. rewrite E.
  rewrite fold_rows, report_rows_split.
  match goal with
  | |- context [(?head ++ ?rows1 ++ report_row x ++ ?rows2) ++ ?foot] =>
      exists ((head ++ rows1 ++ report_row x ++ rows2) ++ foot),
             (tick (tick (tick w))), (head ++ rows1), (rows2 ++ foot)
  end.
  split; [reflexivity|]. split; [|apply report_row_fields].
  now rewrite !append_assoc.
Qed.

End ReportRows.

(** ** Health check *)

Section HealthFacts.

Variable clock : nat -> Z.

(** A number of seconds is never printed as ['N/A']. *)
Lemma seconds_not_NA (z : Z) : Z_to_string z ++ " seconds" <> "N/A".
Proof.
  unfold Z_to_string.
  destruct (Z.to_int z) as [u|u]; destruct u; cbn; discriminate.
Qed.

(** X16: [GET /health] always answers, with status [ok] and the time of the
    request, and leaves the cache as it is.  It reports that the cache exists
    exactly when it holds data, and the age ['N/A'] exactly when the cache
    has no timestamp or the timestamp 0; otherwise the age is the whole
    number of seconds, rounded down, between the timestamp and a second read
    of the clock. *)
Theorem health_reads_only (w : world) :
  exists h w',
    health clock w = (Ok h, w') /\
    newsCache w' = newsCache w /\
    health_status h = "ok" /\
    health_timestamp h = JsDate.toISOString (clock (ticks w)) /\
    (cache_exists h = true <-> data (newsCache w) <> None) /\
    (cache_age h = "N/A" <->
     timestamp (newsCache w) = None \/ timestamp (newsCache w) = Some 0%Z) /\
    (forall ts, timestamp (newsCache w) = Some ts -> ts <> 0%Z ->
       cache_age h
       = Z_to_string ((clock (S (ticks w)) - ts) / 1000) ++ " seconds").
Proof.
  unfold health, bind, new_Date, get_cache, ret. cbn [tick newsCache ticks].
  assert (forall d : option result,
            (match d with Some _ => true | None => false end) = true
            <-> d <> None) as D
    by (intros [x|]; split; congruence).
  destruct (newsCache w) as [d [ts|] ttl] eqn:C; cbn [data timestamp].
  - destruct (Z.eqb_spec ts 0) as [->|N].
    + do 2 eexists. split; [reflexivity|]. split; [exact C|].
      split; [reflexivity|]. split; [reflexivity|]. split; [apply D|].
      cbn [cache_age ticks tick]. split.
      * split; [now right | reflexivity].
      * intros ts E. injection E as <-. intros N. now destruct N.
    + do 2 eexists. split; [reflexivity|]. split; [exact C|].
      split; [reflexivity|]. split; [reflexivity|]. split; [apply D|].
      cbn [cache_age ticks tick]. split.
      * split.
        -- intros E. now apply seconds_not_NA in E.
        -- intros [E|E]; [discriminate E | injection E as ->; now destruct N].
      * intros ts' E. injection E as <-. reflexivity.
  - do 2 eexists. split; [reflexivity|]. split; [exact C|].
      split; [reflexivity|]. split; [reflexivity|]. split; [apply D|].
      cbn [cache_age ticks tick]. split.
    + split; [now left | reflexivity].
    + intros ts E. discriminate E.
Qed.

End HealthFacts.

(** ** More examples *)

Section MoreExamples.

Lemma outage_quiet : quiet Outage.network.
Proof. intros n url. exact I. Qed.

(** X9, an instance: the first request of a server without network, and a
    request half an hour later. *)
Lemma outage_is_cached_witness :
  exists p wa,
    api_breach_news Demo.clock Outage.fetchGoogleNews Demo.world0
    = (Ok {| status := 200; resp_body := Json p |}, wa) /\
    articles p = [] /\
    api_breach_news Demo.clock Demo.fetch1 (later wa 1800)
    = (Ok {| status := 200; resp_body := Json p |}, tick (later wa 1800)).
Proof.
  destruct (outage_is_cached Demo.tokenize stopword_remove Demo.stem
              Demo.Date_parse Demo.clock Outage.network outage_quiet
              Demo.world0)
    as (p & wa & A & E & _ & _ & Hit).
  - vm_compute. discriminate.
  - reflexivity.
  - exists p, wa. split; [exact A|]. split; [exact E|].
    apply Hit. vm_compute. reflexivity.
Defined.

(** X15, an instance: the report of a server without network. *)
Lemma outage_report_page_witness :
  exists w',
    report Demo.clock Outage.fetchGoogleNews Demo.world0
    = (Ok {| status := 200; resp_body := Html no_articles_document |}, w').
Proof.
  apply (outage_report_page Demo.tokenize stopword_remove Demo.stem
           Demo.Date_parse Demo.clock Outage.network outage_quiet Demo.world0).
  reflexivity.
Defined.

(** X10, an instance: a second short of an hour after the refresh the
    stored payload is served, whatever the fetch would do. *)
Lemma cache_ttl_boundary_witness :
  fst (api_breach_news Demo.clock (throw "socket hang up")
         (later (snd Demo.first) 3599))
  = fst Demo.first.
Proof.
  destruct (cache_ttl_boundary Demo.clock Demo.fetch1 Demo.world0
              (snd (Demo.fetch1 (tick Demo.world0))) (snd Demo.first)
              (Demo.fetched (fst (Demo.fetch1 (tick Demo.world0))))
              (fst Demo.first))
    as (R1 & Hit & _).
  - apply demo_fetch_frames.
  - vm_compute. discriminate.
  - reflexivity.
  - vm_compute. reflexivity.
  - vm_compute. reflexivity.
  - rewrite (Hit (throw "socket hang up") 3599%nat); [|vm_compute; reflexivity].
    cbn [fst]. symmetry. exact R1.
Defined.

(** X11, an instance: the fetch fails on an empty cache. *)
Lemma report_error_keeps_cache_witness :
  exists w',
    report Demo.clock (throw "socket hang up") Demo.world0
    = (Ok {| status := 500;
             resp_body := Html "<h1>Error</h1><p>socket hang up</p>" |}, w') /\
    newsCache w' = newsCache Demo.world0.
Proof.
  apply (report_error_keeps_cache Demo.clock (throw "socket hang up")
           Demo.world0 (tick Demo.world0) "socket hang up").
  - apply frames_throw.
  - reflexivity.
  - reflexivity.
Defined.

(** X12, an instance: a report, then the JSON route half an hour later. *)
Lemma routes_share_cache_witness :
  exists html wa p,
    report Demo.clock Demo.fetch1 Demo.world0
    = (Ok {| status := 200; resp_body := Html html |}, wa) /\
    api_breach_news Demo.clock (throw "socket hang up") (later wa 1800)
    = (Ok {| status := 200; resp_body := Json p |}, tick (later wa 1800)) /\
    articles p = Demo.fetched (fst (Demo.fetch1 (tick Demo.world0))).
Proof.
  destruct (routes_share_cache Demo.clock Demo.fetch1 Demo.world0
              (snd (Demo.fetch1 (tick Demo.world0)))
              (Demo.fetched (fst (Demo.fetch1 (tick Demo.world0)))))
    as ((html & wa & R & Hit) & _).
  - apply demo_fetch_frames.
  - vm_compute. discriminate.
  - reflexivity.
  - vm_compute. reflexivity.
  - destruct (Hit (throw "socket hang up") 1800%nat) as (p & A & E);
      [vm_compute; reflexivity|].
    exists html, wa, p. split; [exact R|]. split; [exact A | exact E].
Defined.


(** X17, an instance: the report of the one article of the small host. *)
Lemma report_lists_every_article_witness :
  exists doc w',
    generateHtmlReport Demo.clock (Some [Demo.sample]) Demo.world0
    = (Ok doc, w') /\
    Str.includes doc (title Demo.sample) = true.
Proof.
  destruct (report_lists_every_article Demo.clock Demo.sample [] Demo.world0
              Demo.sample)
    as (doc & w' & before & after & G & E & F).
  - now left.
  - exists doc, w'. split; [exact G|].
    apply includes_iff. apply Forall_forall with (x := title Demo.sample) in F.
    + apply includes_iff in F. destruct F as (a & b & F).
      exists (before ++ a), (b ++ after). rewrite E, F.
      now rewrite !append_assoc.
    + cbn. tauto.
Defined.

End MoreExamples.
